(** * version-sync.py: the version mapping store, the sync recorder,
      the upstream fetcher and the command line dispatcher

    A shallow embedding of [.github/scripts/version-sync.py].

    - Python values, as [json.load] produces them, are the inductive type
      [pyval]; a dictionary is an association list in insertion order.
    - Exceptions are the error type [exn]; a function that can raise
      returns a [result].
    - The functions that touch the backing file, the shared
      [SCHEMA_TEMPLATE] or the output streams are computations [M] over
      an explicit [world].  The world records every file access and every
      printed line in its [trace].
    - The backing file is held as the value it was dumped from, or as
      what [json.load] makes of it; [json.load] of a text that
      [json.dump] wrote is taken to return the dumped value, with its
      keys as strings.
    - A write fails when a [str] of the record cannot be encoded as
      UTF-8 (a command-line byte that is not UTF-8 reaches the program
      as a lone surrogate); the file is then left truncated.  The
      operating system itself is taken to accept the directory, the open
      and the bytes, and the output streams to accept every line.
    - [argparse] is modelled on the command lines listed at
      [parse_args]. *)

From Stdlib Require Import ZArith String Ascii List Lia Bool DecimalString Sorted.
From stdpp Require Import base list.
Import ListNotations.

Set Warnings "-register-all".
Set Default Proof Using "Type".

Local Open Scope string_scope.
Local Open Scope list_scope.

(** ** Python values *)

(** Hashable values, as they occur as dictionary keys.  [json.load] only
    produces [KStr] keys; the other keys arise when [dict(...)] is applied
    to a list of pairs. *)
Inductive pykey :=
| KNone
| KBool (b : bool)
| KInt (z : Z)
| KStr (s : string).

(** The values [json.load] returns.  A JSON number is a Python [int];
    numbers with a fraction or an exponent (Python [float]) are outside
    the model.  A [str] is the sequence of bytes [os.fsencode] gives for
    it: its UTF-8 bytes, where a lone surrogate U+DC80..U+DCFF, which is
    what a command-line byte that is not UTF-8 is decoded to, stands as
    that byte.  Other lone surrogates are outside the model. *)
Inductive pyval :=
| PNone
| PBool (b : bool)
| PInt (z : Z)
| PStr (s : string)
| PList (l : list pyval)
| PDict (d : list (pykey * pyval)).

Definition pydict := list (pykey * pyval).

Inductive exn :=
| TypeError
| ValueError (msg : string)
| KeyError (k : string)
| AttributeError
| JSONDecodeError
| UnicodeEncodeError
| SystemExit (code : Z).

Inductive result (A : Type) :=
| Ok (a : A)
| Raise (e : exn).
Arguments Ok {A} a.
Arguments Raise {A} e.

Definition rbind {A B} (r : result A) (k : A -> result B) : result B :=
  match r with
  | Ok a => k a
  | Raise e => Raise e
  end.

Notation "'let*' x ':=' e 'in' k" := (rbind e (fun x => k))
  (at level 10, x name, e at level 100, k at level 200).

(** *** Dictionaries *)

Definition key_num (k : pykey) : option Z :=
  match k with
  | KBool b => Some (if b then 1 else 0)%Z
  | KInt z => Some z
  | _ => None
  end.

(** Python's [==] on keys: [True == 1] and [False == 0]. *)
Definition key_eqb (a b : pykey) : bool :=
  match a, b with
  | KNone, KNone => true
  | KStr s, KStr t => String.eqb s t
  | _, _ =>
      match key_num a, key_num b with
      | Some x, Some y => Z.eqb x y
      | _, _ => false
      end
  end.

Fixpoint dict_get (k : pykey) (d : pydict) : option pyval :=
  match d with
  | [] => None
  | (k', v) :: d' => if key_eqb k' k then Some v else dict_get k d'
  end.

(** [d[k] = v]: an existing key keeps its place (and its key object),
    a new key goes to the end. *)
Fixpoint dict_set (k : pykey) (v : pyval) (d : pydict) : pydict :=
  match d with
  | [] => [(k, v)]
  | (k', v') :: d' =>
      if key_eqb k' k then (k', v) :: d' else (k', v') :: dict_set k v d'
  end.

Definition dict_keys (d : pydict) : list pykey := map fst d.

(** [d.get(k, default)] on a dictionary. *)
Definition dict_get_default (k : string) (default : pyval) (d : pydict) : pyval :=
  match dict_get (KStr k) d with
  | Some v => v
  | None => default
  end.

(** *** Strings *)

Definition is_continuation (c : ascii) : bool :=
  let n := nat_of_ascii c in (128 <=? n)%nat && (n <? 192)%nat.

(** Splits the UTF-8 bytes of a [str] into its characters. *)
Fixpoint utf8_split (s : string) : string * list string :=
  match s with
  | EmptyString => (EmptyString, [])
  | String c rest =>
      let '(k, cs) := utf8_split rest in
      if is_continuation c then (String c k, cs)
      else (EmptyString, String c k :: cs)
  end.

Definition utf8_chars (s : string) : list string := snd (utf8_split s).

(** *** Encoding as UTF-8 *)

(** Where a decoder of UTF-8 stands: between two characters, or inside
    one, with [n] more bytes to come, the next of them from [lo] to
    [hi]. *)
Inductive utf8_state :=
| Utf8Start
| Utf8Need (n lo hi : nat).

(** One byte of well-formed UTF-8 (RFC 3629): no overlong form, no
    surrogate, nothing above U+10FFFF. *)
Definition utf8_step (st : utf8_state) (b : nat) : option utf8_state :=
  match st with
  | Utf8Start =>
      if (b <? 128)%nat then Some Utf8Start
      else if ((194 <=? b) && (b <=? 223))%nat then Some (Utf8Need 1 128 191)
      else if (b =? 224)%nat then Some (Utf8Need 2 160 191)
      else if (b =? 237)%nat then Some (Utf8Need 2 128 159)
      else if ((225 <=? b) && (b <=? 239))%nat then Some (Utf8Need 2 128 191)
      else if (b =? 240)%nat then Some (Utf8Need 3 144 191)
      else if ((241 <=? b) && (b <=? 243))%nat then Some (Utf8Need 3 128 191)
      else if (b =? 244)%nat then Some (Utf8Need 3 128 143)
      else None
  | Utf8Need n lo hi =>
      if ((lo <=? b) && (b <=? hi))%nat
      then Some (match n with
                 | S (S m) => Utf8Need (S m) 128 191
                 | _ => Utf8Start
                 end)
      else None
  end.

Fixpoint utf8_valid (st : utf8_state) (s : string) : bool :=
  match s with
  | EmptyString => match st with Utf8Start => true | _ => false end
  | String c rest =>
      match utf8_step st (nat_of_ascii c) with
      | Some st' => utf8_valid st' rest
      | None => false
      end
  end.

(** [s.encode("utf-8")] does not raise: the [str] holds no lone
    surrogate, that is, its bytes are well-formed UTF-8. *)
Definition encodable (s : string) : bool := utf8_valid Utf8Start s.

(** [needle in hay] for two [str]. *)
Definition is_substring (needle hay : string) : bool :=
  match String.index 0 needle hay with
  | Some _ => true
  | None => false
  end.

(** [s.lstrip("v")]: drops every leading ["v"]. *)
Fixpoint lstrip_v (s : string) : string :=
  match s with
  | String c rest => if Ascii.eqb c "v"%char then lstrip_v rest else s
  | EmptyString => EmptyString
  end.

(** *** Operators and builtins on values *)

Definition is_str (s : string) (v : pyval) : bool :=
  match v with
  | PStr t => String.eqb t s
  | _ => false
  end.

(** [bool(v)] *)
Definition py_truthy (v : pyval) : bool :=
  match v with
  | PNone => false
  | PBool b => b
  | PInt z => negb (Z.eqb z 0)
  | PStr s => negb (String.eqb s "")
  | PList l => match l with [] => false | _ => true end
  | PDict d => match d with [] => false | _ => true end
  end.

(** [k in v] for a [str] [k] *)
Definition py_in (k : string) (v : pyval) : result bool :=
  match v with
  | PDict d => Ok (match dict_get (KStr k) d with Some _ => true | None => false end)
  | PList l => Ok (existsb (is_str k) l)
  | PStr t => Ok (is_substring k t)
  | _ => Raise TypeError
  end.

(** [v[k]] for a [str] [k] *)
Definition py_getitem (v : pyval) (k : string) : result pyval :=
  match v with
  | PDict d => match dict_get (KStr k) d with
               | Some x => Ok x
               | None => Raise (KeyError k)
               end
  | _ => Raise TypeError
  end.

(** [v.get(k, default)] *)
Definition py_get (v : pyval) (k : string) (default : pyval) : result pyval :=
  match v with
  | PDict d => Ok (dict_get_default k default d)
  | _ => Raise AttributeError
  end.

(** [v.get(k)] *)
Definition py_get_none (v : pyval) (k : string) : result pyval :=
  py_get v k PNone.

Definition to_key (v : pyval) : result pykey :=
  match v with
  | PNone => Ok KNone
  | PBool b => Ok (KBool b)
  | PInt z => Ok (KInt z)
  | PStr s => Ok (KStr s)
  | PList _ | PDict _ => Raise TypeError
  end.

Definition of_key (k : pykey) : pyval :=
  match k with
  | KNone => PNone
  | KBool b => PBool b
  | KInt z => PInt z
  | KStr s => PStr s
  end.

(** One element of the sequence handed to [dict(...)]: it has to be an
    iterable of exactly two items, the first of them hashable. *)
Definition pair_of (item : pyval) : result (pykey * pyval) :=
  match item with
  | PList [k; v] => let* k' := to_key k in Ok (k', v)
  | PList _ => Raise (ValueError "dictionary update sequence element has wrong length")
  | PStr s =>
      match utf8_chars s with
      | [a; b] => Ok (KStr a, PStr b)
      | _ => Raise (ValueError "dictionary update sequence element has wrong length")
      end
  | PDict [(k1, _); (k2, _)] => Ok (k1, of_key k2)
  | PDict _ => Raise (ValueError "dictionary update sequence element has wrong length")
  | _ => Raise TypeError
  end.

Fixpoint dict_of_pairs (acc : pydict) (items : list pyval) : result pydict :=
  match items with
  | [] => Ok acc
  | item :: rest =>
      let* kv := pair_of item in
      dict_of_pairs (dict_set (fst kv) (snd kv) acc) rest
  end.

(** [dict(v)] *)
Definition py_dict (v : pyval) : result pydict :=
  match v with
  | PDict d => Ok d
  | PList l => dict_of_pairs [] l
  | PStr s =>
      match s with
      | EmptyString => Ok []
      | _ => Raise (ValueError "dictionary update sequence element has wrong length")
      end
  | _ => Raise TypeError
  end.

(** [l[-n:]] *)
Definition lastn {A} (n : nat) (l : list A) : list A :=
  drop (length l - n) l.

(** ** Module constants *)

Definition DEFAULT_DESCRIPTION : string :=
  "版本映射配置文件 - 用于管理上游版本与 NAD 版本的对应关系".

Definition EMPTY_LAST_SYNC : pydict :=
  [ (KStr "timestamp", PStr "");
    (KStr "upstream_version", PStr "");
    (KStr "nad_version", PStr "");
    (KStr "trigger_type", PStr "") ].

(** [SCHEMA_TEMPLATE] is one module-level dictionary; the objects under
    its keys are shared by every [dict(SCHEMA_TEMPLATE)].  Only the
    dictionary under ["version_mappings"] is ever mutated in place, so it
    is the parameter [shared]; the empty history list and the placeholder
    keep their literal value. *)
Definition SCHEMA_TEMPLATE (shared : pydict) : pydict :=
  [ (KStr "description", PStr DEFAULT_DESCRIPTION);
    (KStr "version_mappings", PDict shared);
    (KStr "sync_history", PList []);
    (KStr "last_sync", PDict EMPTY_LAST_SYNC) ].

Definition MAX_HISTORY : nat := 20.

(** ** _ensure_schema *)

Definition _ensure_schema (shared : pydict) (raw : pyval) : result pydict :=
  let data := SCHEMA_TEMPLATE shared in
  let* has_description := py_in "description" raw in
  let* data :=
    (if has_description : bool
     then let* d := py_getitem raw "description" in
          Ok (dict_set (KStr "description") d data)
     else Ok data) in
  let* vm := py_get raw "version_mappings" (PDict []) in
  let* vm_copy := py_dict vm in
  let data := dict_set (KStr "version_mappings") (PDict vm_copy) data in
  let* history := py_get raw "sync_history" (PList []) in
  let data :=
    match history with
    | PList h => dict_set (KStr "sync_history") (PList (lastn MAX_HISTORY h)) data
    | _ => dict_set (KStr "sync_history") (PList []) data
    end in
  let* last_sync := py_get raw "last_sync" (PDict []) in
  let data :=
    match last_sync with
    | PDict ls =>
        dict_set (KStr "last_sync")
          (PDict [ (KStr "timestamp", dict_get_default "timestamp" (PStr "") ls);
                   (KStr "upstream_version", dict_get_default "upstream_version" (PStr "") ls);
                   (KStr "nad_version", dict_get_default "nad_version" (PStr "") ls);
                   (KStr "trigger_type", dict_get_default "trigger_type" (PStr "") ls) ])
          data
    | _ => data
    end in
  Ok data.

(** ** The world: backing file, shared template, output *)

(** What [MAPPING_FILE] holds.  Its bytes are not modelled one by one: a
    file that [json.dump] produced is represented by the value that was
    dumped, any other text by what [json.load] makes of it. *)
Inductive file_content :=
| Written (data : pyval)
| Foreign (parsed : option pyval).

(** The lines the program prints, with the values they are formatted
    from. *)
Inductive message :=
| MsgCreating
| MsgLoadFailed (e : exn)
| MsgUpdated (upstream nad trigger : string)
| MsgFetchFailed (stderr : string)
| MsgFetchError
| MsgParseFailed (e : exn)
| MsgLatest (version : string)
| MsgUpstream (version : string)
| MsgNoData
| MsgHistoryHeader
| MsgHistoryLine (idx : nat) (timestamp upstream nad trigger : pyval)
| MsgMappingHeader
| MsgMappingLine (ok : bool) (upstream : pykey) (nad : pyval)
| MsgHelp
| MsgUsageError
| MsgSaveFailed (e : exn)
| MsgWriteFailed (e : exn)
| MsgTraceback (e : exn).

Inductive event :=
| FsExists
| FsRead
| FsMkdir
| FsWrite
| NetGet
| Stdout (m : message)
| Stderr (m : message).

Record world := World {
  file : option file_content;
  shared_mappings : pydict;
  trace : list event
}.

Definition M (A : Type) : Type := world -> result A * world.

Definition ret {A} (a : A) : M A := fun w => (Ok a, w).

Definition raise {A} (e : exn) : M A := fun w => (Raise e, w).

Definition lift {A} (r : result A) : M A := fun w => (r, w).

Definition bind {A B} (m : M A) (k : A -> M B) : M B :=
  fun w =>
    match m w with
    | (Ok a, w') => k a w'
    | (Raise e, w') => (Raise e, w')
    end.

Notation "'do*' x ':=' e 'in' k" := (bind e (fun x => k))
  (at level 10, x name, e at level 100, k at level 200).

(** [try: m  except Exception as exc: h exc]; [SystemExit] is not an
    [Exception] and passes through. *)
Definition try_except {A} (m : M A) (h : exn -> M A) : M A :=
  fun w =>
    match m w with
    | (Raise (SystemExit c), w') => (Raise (SystemExit c), w')
    | (Raise e, w') => h e w'
    | (Ok a, w') => (Ok a, w')
    end.

Definition emit (e : event) : M unit :=
  fun w => (Ok tt, World (file w) (shared_mappings w) (trace w ++ [e])).

Definition print (m : message) : M unit := emit (Stdout m).

Definition eprint (m : message) : M unit := emit (Stderr m).

Definition get_file : M (option file_content) := fun w => (Ok (file w), w).

Definition put_file (c : file_content) : M unit :=
  fun w => (Ok tt, World (Some c) (shared_mappings w) (trace w)).

Definition get_shared : M pydict := fun w => (Ok (shared_mappings w), w).

Definition put_shared (d : pydict) : M unit :=
  fun w => (Ok tt, World (file w) d (trace w)).

(** The world after more events. *)
Definition log (w : world) (events : list event) : world :=
  World (file w) (shared_mappings w) (trace w ++ events).

(** *** The json library *)

(** [int.__repr__] *)
Definition int_repr (z : Z) : string := NilZero.string_of_int (Z.to_int z).

(** The key [json.dump] writes for a dictionary key. *)
Definition json_key (k : pykey) : string :=
  match k with
  | KStr s => s
  | KBool true => "true"
  | KBool false => "false"
  | KNone => "null"
  | KInt z => int_repr z
  end.

(** What [json.load] returns on the text [json.dump] wrote for [v]: keys
    come back as [str], and of two equal keys the later value wins. *)
Fixpoint json_reload (v : pyval) : pyval :=
  match v with
  | PList l => PList (map json_reload l)
  | PDict d =>
      PDict (fold_left
               (fun acc kv => dict_set (KStr (json_key (fst kv))) (json_reload (snd kv)) acc)
               d [])
  | _ => v
  end.

(** [json.load(handle)] *)
Definition json_load (c : file_content) : result pyval :=
  match c with
  | Written data => Ok (json_reload data)
  | Foreign (Some raw) => Ok raw
  | Foreign None => Raise JSONDecodeError
  end.

(** ** load_version_mapping *)

(** The second component tells whether [data["version_mappings"]] is the
    dictionary of [SCHEMA_TEMPLATE] itself ([dict(SCHEMA_TEMPLATE)] is a
    shallow copy) rather than a fresh one. *)
Definition load_version_mapping : M (pydict * bool) :=
  do* _ := emit FsExists in
  do* f := get_file in
  do* shared := get_shared in
  match f with
  | None =>
      do* _ := print MsgCreating in
      ret (SCHEMA_TEMPLATE shared, true)
  | Some c =>
      try_except
        (do* _ := emit FsRead in
         do* raw := lift (json_load c) in
         do* data := lift (_ensure_schema shared raw) in
         ret (data, false))
        (fun exc =>
           do* _ := eprint (MsgLoadFailed exc) in
           ret (SCHEMA_TEMPLATE shared, true))
  end.

(** ** _write_mapping *)

(** A key is written as a [str]; only a key that is a [str] can hold
    what UTF-8 cannot encode, the other keys are written in ASCII. *)
Definition encodable_key (k : pykey) : bool :=
  match k with
  | KStr s => encodable s
  | _ => true
  end.

(** Every [str] of the value, keys included, can be encoded. *)
Fixpoint encodable_value (v : pyval) : bool :=
  match v with
  | PStr s => encodable s
  | PList l => forallb encodable_value l
  | PDict d => forallb (fun kv => encodable_key (fst kv) && encodable_value (snd kv)) d
  | _ => true
  end.

(** [mkdir] succeeds and [open("w")] truncates the file.  [json.dump]
    with [ensure_ascii=False] then hands the text to the UTF-8 handle
    piece by piece, the opening brace first and every [str] as a piece of
    its own.  When every [str] of [data] can be encoded the file holds
    the dump of [data].  Otherwise the first piece with a lone surrogate
    raises [UnicodeEncodeError], and closing the handle leaves the pieces
    before it: an object that is not closed, which [json.load]
    rejects. *)
Definition _write_mapping (data : pydict) : M unit :=
  do* _ := emit FsMkdir in
  do* _ := emit FsWrite in
  if encodable_value (PDict data)
  then put_file (Written (PDict data))
  else do* _ := put_file (Foreign None) in raise UnicodeEncodeError.

(** ** save_version_mapping *)

(** [sync.get("upstream_version") != upstream_version] *)
Definition other_version (upstream_version : string) (sync : pyval) : result bool :=
  let* v := py_get_none sync "upstream_version" in
  Ok (negb (is_str upstream_version v)).

(** [[sync for sync in history if sync.get("upstream_version") != upstream_version]]
    over the items of a list *)
Fixpoint keep_other_versions (upstream_version : string) (history : list pyval)
  : result (list pyval) :=
  match history with
  | [] => Ok []
  | sync :: rest =>
      let* keep := other_version upstream_version sync in
      let* rest' := keep_other_versions upstream_version rest in
      Ok (if keep : bool then sync :: rest' else rest')
  end.

(** The same comprehension over any value: the items of a [str] or the
    keys of a dictionary have no [get], the other values do not iterate. *)
Definition comprehension (upstream_version : string) (history : pyval)
  : result (list pyval) :=
  match history with
  | PList h => keep_other_versions upstream_version h
  | PStr EmptyString | PDict [] => Ok []
  | PStr _ | PDict _ => Raise AttributeError
  | _ => Raise TypeError
  end.

Definition make_entry (timestamp upstream_version nad_version trigger_type : string)
  : pydict :=
  [ (KStr "timestamp", PStr timestamp);
    (KStr "upstream_version", PStr upstream_version);
    (KStr "nad_version", PStr nad_version);
    (KStr "trigger_type",
       PStr (if String.eqb trigger_type "" then "auto" else trigger_type)) ].

(** [mapping_data["version_mappings"][upstream_version] = nad_version]:
    the assignment goes into the dictionary object itself, which is the
    one of [SCHEMA_TEMPLATE] when [aliased]. *)
Definition set_mapping (mapping_data : pydict) (aliased : bool)
    (upstream_version nad_version : string) : M pydict :=
  match dict_get (KStr "version_mappings") mapping_data with
  | Some (PDict vm) =>
      let vm' := dict_set (KStr upstream_version) (PStr nad_version) vm in
      do* _ := (if aliased then put_shared vm' else ret tt) in
      ret (dict_set (KStr "version_mappings") (PDict vm') mapping_data)
  | Some _ => raise TypeError
  | None => raise (KeyError "version_mappings")
  end.

(** [now] is what [_now_iso()] returns during the call.  An exception of
    [_write_mapping] is reported on the error stream and raised again. *)
Definition save_version_mapping (now : string)
    (upstream_version nad_version trigger_type : string) : M unit :=
  if String.eqb upstream_version "" then raise (ValueError "缺少上游版本号")
  else if String.eqb nad_version "" then raise (ValueError "缺少 NAD 版本号")
  else
    do* loaded := load_version_mapping in
    do* mapping_data :=
      set_mapping (fst loaded) (snd loaded) upstream_version nad_version in
    let entry := make_entry now upstream_version nad_version trigger_type in
    do* history :=
      lift (comprehension upstream_version
              (dict_get_default "sync_history" (PList []) mapping_data)) in
    let history := history ++ [PDict entry] in
    let mapping_data :=
      dict_set (KStr "sync_history") (PList (lastn MAX_HISTORY history)) mapping_data in
    let mapping_data := dict_set (KStr "last_sync") (PDict entry) mapping_data in
    try_except
      (do* _ := _write_mapping mapping_data in
       print (MsgUpdated upstream_version nad_version
                (if String.eqb trigger_type "" then "auto" else trigger_type)))
      (fun exc => do* _ := eprint (MsgWriteFailed exc) in raise exc).

(** ** get_upstream_version *)

(** What [subprocess.run] of curl comes to, and for a successful run what
    [json.loads] makes of its output ([None] when it raises). *)
Inductive curl_outcome :=
| CalledProcessError (stderr : string)
| LaunchError
| Completed (body : option pyval).

(** [.lstrip("v")] on any value *)
Definition py_lstrip_v (v : pyval) : result string :=
  match v with
  | PStr s => Ok (lstrip_v s)
  | _ => Raise AttributeError
  end.

Definition get_upstream_version (curl : curl_outcome) : M (option string) :=
  do* _ := emit NetGet in
  match curl with
  | CalledProcessError stderr =>
      do* _ := eprint (MsgFetchFailed stderr) in ret None
  | LaunchError =>
      do* _ := eprint MsgFetchError in ret None
  | Completed body =>
      try_except
        (do* release_data :=
           lift (match body with Some v => Ok v | None => Raise JSONDecodeError end) in
         do* tag := lift (py_get_none release_data "tag_name") in
         do* version := lift (py_lstrip_v (if py_truthy tag then tag else PStr "")) in
         if negb (String.eqb version "")
         then do* _ := print (MsgLatest version) in ret (Some version)
         else ret None)
        (fun exc => do* _ := eprint (MsgParseFailed exc) in ret None)
  end.

(** ** list_mappings *)

Fixpoint print_history (idx : nat) (entries : list pyval) : M unit :=
  match entries with
  | [] => ret tt
  | entry :: rest =>
      do* timestamp := lift (py_getitem entry "timestamp") in
      do* upstream := lift (py_getitem entry "upstream_version") in
      do* nad := lift (py_getitem entry "nad_version") in
      do* trigger := lift (py_getitem entry "trigger_type") in
      do* _ := print (MsgHistoryLine idx timestamp upstream nad trigger) in
      print_history (S idx) rest
  end.

(** [a < b] on keys: [str] with [str], numbers with numbers. *)
Definition key_ltb (a b : pykey) : result bool :=
  match a, b with
  | KStr s, KStr t => Ok (String.ltb s t)
  | _, _ =>
      match key_num a, key_num b with
      | Some x, Some y => Ok (Z.ltb x y)
      | _, _ => Raise TypeError
      end
  end.

Fixpoint insert_item (x : pykey * pyval) (l : list (pykey * pyval))
  : result (list (pykey * pyval)) :=
  match l with
  | [] => Ok [x]
  | y :: l' =>
      let* lt := key_ltb (fst x) (fst y) in
      if lt : bool then Ok (x :: y :: l')
      else let* r := insert_item x l' in Ok (y :: r)
  end.

(** [sorted(mappings.items())]: the keys of a dictionary differ, so the
    items are ordered by key alone. *)
Fixpoint sorted_items (d : pydict) : result (list (pykey * pyval)) :=
  match d with
  | [] => Ok []
  | x :: d' => let* s := sorted_items d' in insert_item x s
  end.

(** [str(k)] as an f-string formats it *)
Definition key_str (k : pykey) : string :=
  match k with
  | KStr s => s
  | KBool true => "True"
  | KBool false => "False"
  | KNone => "None"
  | KInt z => int_repr z
  end.

Fixpoint print_mappings (items : list (pykey * pyval)) : M unit :=
  match items with
  | [] => ret tt
  | (upstream, nad) :: rest =>
      let suffix_ok := is_str (key_str upstream ++ "-no-aja") nad in
      do* _ := print (MsgMappingLine suffix_ok upstream nad) in
      print_mappings rest
  end.

Definition list_mappings : M unit :=
  do* loaded := load_version_mapping in
  let mapping_data := fst loaded in
  let history := dict_get_default "sync_history" (PList []) mapping_data in
  let mappings := dict_get_default "version_mappings" (PDict []) mapping_data in
  if negb (py_truthy history) && negb (py_truthy mappings)
  then print MsgNoData
  else
    do* _ :=
      (if py_truthy history
       then do* _ := print MsgHistoryHeader in
            match history with
            | PList h => print_history 1 (rev h)
            | _ => raise TypeError
            end
       else ret tt) in
    if py_truthy mappings
    then do* _ := print MsgMappingHeader in
         match mappings with
         | PDict d => do* items := lift (sorted_items d) in print_mappings items
         | _ => raise AttributeError
         end
    else ret tt.

(** ** build_parser and main *)

(** The attributes [parse_args] sets; the last three only exist for
    [save-mapping]. *)
Record namespace := Namespace {
  command : option string;
  upstream_version : string;
  nad_version : string;
  trigger_type : string
}.

Definition SUBCOMMANDS : list string := ["get-upstream"; "save-mapping"; "list"].

Definition is_subcommand (a : string) : bool :=
  existsb (String.eqb a) SUBCOMMANDS.

(** An argument argparse always reads as a positional one: the empty
    string, or a string that does not start with ["-"]. *)
Definition plain (a : string) : bool :=
  match a with
  | String c _ => negb (Ascii.eqb c "-"%char)
  | EmptyString => true
  end.

(** argparse's [parser.error]: usage and message on stderr, exit status 2. *)
Definition usage_error {A} : M A :=
  do* _ := eprint MsgUsageError in raise (SystemExit 2).

(** [parser.parse_args(argv)] for the parser [build_parser] makes, on the
    command lines covered here: those that begin with a help flag, and
    those that begin with a plain argument followed by plain arguments
    only, or, for [save-mapping], by two plain arguments and
    [--trigger-type] with a plain value.  A first plain argument that is
    not a subcommand is an invalid choice whatever follows it.  [None]
    stands for a command line outside this fragment. *)
Definition parse_args (argv : list string) : option (M namespace) :=
  match argv with
  | [] => Some (ret (Namespace None "" "" ""))
  | a :: rest =>
      if String.eqb a "-h" || String.eqb a "--help"
      then Some (do* _ := print MsgHelp in raise (SystemExit 0))
      else if negb (plain a) then None
      else if negb (is_subcommand a) then Some usage_error
      else if String.eqb a "save-mapping" then
        match rest with
        | [u; n; flag; t] =>
            if plain u && plain n && String.eqb flag "--trigger-type" && plain t
            then Some (ret (Namespace (Some a) u n t))
            else if forallb plain rest then Some usage_error else None
        | [u; n] =>
            if plain u && plain n
            then Some (ret (Namespace (Some a) u n "manual"))
            else None
        | _ => if forallb plain rest then Some usage_error else None
        end
      else
        match rest with
        | [] => Some (ret (Namespace (Some a) "" "" ""))
        | _ => if forallb plain rest then Some usage_error else None
        end
  end.

(** What the environment supplies during one run: the clock reading and
    the outcome of the curl call. *)
Record env := Env {
  now : string;
  curl : curl_outcome
}.

Definition command_is (args : namespace) (name : string) : bool :=
  match command args with
  | Some c => String.eqb c name
  | None => false
  end.

Definition main (e : env) (argv : list string) : option (M Z) :=
  match argv with
  | [] => Some (do* _ := print MsgHelp in ret 0%Z)
  | _ =>
      match parse_args argv with
      | None => None
      | Some parse =>
          Some
            (do* args := parse in
             if command_is args "get-upstream" then
               do* version := get_upstream_version (curl e) in
               match version with
               | None => ret 1%Z
               | Some v => do* _ := print (MsgUpstream v) in ret 0%Z
               end
             else if command_is args "save-mapping" then
               try_except
                 (do* _ := save_version_mapping (now e) (upstream_version args)
                             (nad_version args) (trigger_type args) in
                  ret 0%Z)
                 (fun exc => do* _ := eprint (MsgSaveFailed exc) in ret 1%Z)
             else if command_is args "list" then
               do* _ := list_mappings in ret 0%Z
             else
               do* _ := print MsgHelp in ret 0%Z)
      end
  end.

(** [sys.exit(main(sys.argv[1:]))]: the exit status of the process.  An
    exception that reaches the top level prints a traceback and gives
    status 1. *)
Definition script (e : env) (argv : list string) (w : world) : option (Z * world) :=
  match main e argv with
  | None => None
  | Some m =>
      Some
        match m w with
        | (Ok status, w') => (status, w')
        | (Raise (SystemExit status), w') => (status, w')
        | (Raise exc, w') =>
            (1%Z, World (file w') (shared_mappings w') (trace w' ++ [Stderr (MsgTraceback exc)]))
        end
  end.

(** ** json.dump(data, handle, indent=2, ensure_ascii=False) *)

Definition chr (n : nat) : string := String (ascii_of_nat n) EmptyString.

Definition hex_digit (n : nat) : string :=
  match n with
  | 0 => "0" | 1 => "1" | 2 => "2" | 3 => "3" | 4 => "4" | 5 => "5"
  | 6 => "6" | 7 => "7" | 8 => "8" | 9 => "9" | 10 => "a" | 11 => "b"
  | 12 => "c" | 13 => "d" | 14 => "e" | _ => "f"
  end.

(** [ESCAPE_DCT]: the quote, the backslash and the control characters are
    escaped, every other byte is written as it is. *)
Definition escape_char (c : ascii) : string :=
  let n := nat_of_ascii c in
  (if (n =? 34)%nat then chr 92 ++ chr 34
   else if (n =? 92)%nat then chr 92 ++ chr 92
   else if (n =? 8)%nat then chr 92 ++ "b"
   else if (n =? 12)%nat then chr 92 ++ "f"
   else if (n =? 10)%nat then chr 92 ++ "n"
   else if (n =? 13)%nat then chr 92 ++ "r"
   else if (n =? 9)%nat then chr 92 ++ "t"
   else if (n <? 32)%nat
        then chr 92 ++ "u00" ++ hex_digit (n / 16) ++ hex_digit (n mod 16)
   else String c EmptyString)%string.

Fixpoint escape (s : string) : string :=
  match s with
  | EmptyString => EmptyString
  | String c rest => (escape_char c ++ escape rest)%string
  end.

Definition encode_basestring (s : string) : string :=
  (chr 34 ++ escape s ++ chr 34)%string.

Fixpoint spaces (n : nat) : string :=
  match n with
  | O => EmptyString
  | S m => String " " (spaces m)
  end.

Definition newline_indent (level : nat) : string :=
  (chr 10 ++ spaces (2 * level))%string.

Fixpoint join (sep : string) (parts : list string) : string :=
  match parts with
  | [] => EmptyString
  | [p] => p
  | p :: rest => (p ++ sep ++ join sep rest)%string
  end.

Fixpoint json_dumps (level : nat) (v : pyval) : string :=
  match v with
  | PNone => "null"
  | PBool true => "true"
  | PBool false => "false"
  | PInt z => int_repr z
  | PStr s => encode_basestring s
  | PList [] => "[]"
  | PList l =>
      ("[" ++ newline_indent (S level)
           ++ join ("," ++ newline_indent (S level)) (map (json_dumps (S level)) l)
           ++ newline_indent level ++ "]")%string
  | PDict [] => "{}"
  | PDict d =>
      ("{" ++ newline_indent (S level)
           ++ join ("," ++ newline_indent (S level))
                (map (fun kv => encode_basestring (json_key (fst kv)) ++ ": "
                                ++ json_dumps (S level) (snd kv)) d)
           ++ newline_indent level ++ "}")%string
  end.

(** The bytes of a backing file this program wrote in full. *)
Definition file_text (c : file_content) : option string :=
  match c with
  | Written data => Some (json_dumps 0 data)
  | Foreign _ => None
  end.

(** ** Records and their fields *)

Definition SCHEMA_KEYS : list pykey :=
  [KStr "description"; KStr "version_mappings"; KStr "sync_history"; KStr "last_sync"].

(** A dictionary with the four top-level fields, in the order of
    [SCHEMA_TEMPLATE]. *)
Definition record_of (description version_mappings sync_history last_sync : pyval)
  : pydict :=
  [ (KStr "description", description);
    (KStr "version_mappings", version_mappings);
    (KStr "sync_history", sync_history);
    (KStr "last_sync", last_sync) ].

Definition sync_event (timestamp upstream nad trigger : pyval) : pydict :=
  [ (KStr "timestamp", timestamp);
    (KStr "upstream_version", upstream);
    (KStr "nad_version", nad);
    (KStr "trigger_type", trigger) ].

Definition is_dict (v : pyval) : bool :=
  match v with
  | PDict _ => true
  | _ => false
  end.

(** The history entries whose [upstream_version] is [u]. *)
Definition entry_for (u : string) (entry : pyval) : bool :=
  match entry with
  | PDict d => is_str u (dict_get_default "upstream_version" PNone d)
  | _ => false
  end.

(** The fields of the record in the backing file, when the program wrote
    it. *)
Definition stored (field : string) (w : world) : option pyval :=
  match file w with
  | Some (Written (PDict data)) => dict_get (KStr field) data
  | _ => None
  end.

Definition stored_history (w : world) : option (list pyval) :=
  match stored "sync_history" w with
  | Some (PList h) => Some h
  | _ => None
  end.

Definition stored_mapping (u : string) (w : world) : option pyval :=
  match stored "version_mappings" w with
  | Some (PDict vm) => dict_get (KStr u) vm
  | _ => None
  end.

(** The record [load_version_mapping] returns in [w] has a history of
    objects only: the states over which [save_version_mapping] can
    filter the history. *)
Definition history_of_objects (w : world) : bool :=
  match load_version_mapping w with
  | (Ok (data, _), _) =>
      match dict_get (KStr "sync_history") data with
      | Some (PList h) => forallb is_dict h
      | _ => false
      end
  | _ => false
  end.

(** ** Sequences of calls *)

Record call := Call {
  call_now : string;
  call_upstream : string;
  call_nad : string;
  call_trigger : string
}.

Definition valid_call (c : call) : bool :=
  negb (String.eqb (call_upstream c) "") && negb (String.eqb (call_nad c) "").

Definition event_of (c : call) : pyval :=
  PDict (make_entry (call_now c) (call_upstream c) (call_nad c) (call_trigger c)).

Definition record (c : call) : M unit :=
  save_version_mapping (call_now c) (call_upstream c) (call_nad c) (call_trigger c).

Fixpoint record_all (calls : list call) : M unit :=
  match calls with
  | [] => ret tt
  | c :: rest => do* _ := record c in record_all rest
  end.

(** The operations of the tool.  A failing operation leaves the world it
    reached; [Restart] begins a new process, whose [SCHEMA_TEMPLATE] is
    the literal one again. *)
Inductive op :=
| OpRecord (c : call)
| OpList
| OpGetUpstream (c : curl_outcome)
| Restart.

Definition run_op (o : op) (w : world) : world :=
  match o with
  | OpRecord c => snd (record c w)
  | OpList => snd (list_mappings w)
  | OpGetUpstream c => snd (get_upstream_version c w)
  | Restart => World (file w) [] (trace w)
  end.

Definition run (ops : list op) (w : world) : world :=
  fold_left (fun w o => run_op o w) ops w.

(** Before first use: no backing file, nothing printed. *)
Definition initial : world := World None [] [].

(** The event of the last call, among [ops], that passed the validation
    of [save_version_mapping]. *)
Fixpoint last_recorded (ops : list op) (acc : option pyval) : option pyval :=
  match ops with
  | [] => acc
  | OpRecord c :: rest =>
      last_recorded rest (if valid_call c then Some (event_of c) else acc)
  | _ :: rest => last_recorded rest acc
  end.

(** ** JSON documents *)

Definition is_kstr (k : pykey) : bool :=
  match k with
  | KStr _ => true
  | _ => false
  end.

Fixpoint fresh_key (k : pykey) (d : list (pykey * pyval)) : bool :=
  match d with
  | [] => true
  | (k', _) :: d' => negb (key_eqb k' k) && fresh_key k d'
  end.

(** The values [json.load] can return: every key is a [str], and the keys
    of one object differ. *)
Fixpoint is_json (v : pyval) : bool :=
  match v with
  | PList l => forallb is_json l
  | PDict d =>
      (fix go (d : list (pykey * pyval)) : bool :=
         match d with
         | [] => true
         | (k, x) :: d' => is_kstr k && fresh_key k d' && is_json x && go d'
         end) d
  | _ => true
  end.

(** A record as [save_version_mapping] writes it: the four fields in
    schema order, a mapping, a history of at most [MAX_HISTORY] entries
    and a last sync event with its four fields. *)
Inductive well_formed : pydict -> Prop :=
| well_formed_intro description vm h timestamp upstream nad trigger :
    is_json description = true ->
    is_json (PDict vm) = true ->
    is_json (PList h) = true ->
    length h <= MAX_HISTORY ->
    is_json timestamp = true ->
    is_json upstream = true ->
    is_json nad = true ->
    is_json trigger = true ->
    well_formed
      (record_of description (PDict vm) (PList h)
         (PDict (sync_event timestamp upstream nad trigger))).

(** ** The four fields after normalization *)

Definition norm_history (v : pyval) : list pyval :=
  match v with
  | PList h => lastn MAX_HISTORY h
  | _ => []
  end.

Definition norm_last_sync (v : pyval) : pydict :=
  match v with
  | PDict ls =>
      sync_event (dict_get_default "timestamp" (PStr "") ls)
                 (dict_get_default "upstream_version" (PStr "") ls)
                 (dict_get_default "nad_version" (PStr "") ls)
                 (dict_get_default "trigger_type" (PStr "") ls)
  | _ => EMPTY_LAST_SYNC
  end.

(** The record [_ensure_schema] builds from the object [d] once
    [dict(...)] has produced the mapping [vm]. *)
Definition normalized (d : pydict) (vm : pydict) : pydict :=
  record_of (dict_get_default "description" (PStr DEFAULT_DESCRIPTION) d)
            (PDict vm)
            (PList (norm_history (dict_get_default "sync_history" (PList []) d)))
            (PDict (norm_last_sync (dict_get_default "last_sync" (PDict []) d))).

(** ** The reading of the specification *)

(** "strips a single leading literal v prefix if present" *)
Definition spec_strip_single_v (tag : string) : string :=
  match tag with
  | String c rest => if Ascii.eqb c "v"%char then rest else tag
  | EmptyString => EmptyString
  end.

(** ** Outcomes *)

(** The result is a value or an exception that [except Exception]
    catches. *)
Definition stays {A} (r : result A) : Prop :=
  match r with
  | Raise (SystemExit _) => False
  | _ => True
  end.

(** What [json.load] followed by [_ensure_schema] makes of a file. *)
Definition parse_file (shared : pydict) (c : file_content) : result pydict :=
  let* raw := json_load c in _ensure_schema shared raw.

(** ** Invariants of the operations *)

(** A computation that does nothing to the world but print and record
    accesses. *)
Definition logs_only {A} (m : M A) : Prop :=
  forall w, exists events, snd (m w) = log w events.

(** What a reachable state holds once the last recorded event is [ev]. *)
Definition last_sync_is (ev : option pyval) (w : world) : Prop :=
  match ev with
  | None => file w = None
  | Some e =>
      exists desc vm h,
        file w = Some (Written (PDict (record_of desc (PDict vm) (PList h) e)))
        /\ forallb is_dict h = true
        /\ last h = Some e
        /\ exists c, e = event_of c
  end.

(** ** Leading characters of a tag *)

(** [n] times ["v"] *)
Fixpoint v_run (n : nat) : string :=
  match n with
  | O => EmptyString
  | S m => String "v" (v_run m)
  end.

Definition starts_with_v (s : string) : bool :=
  match s with
  | String c _ => Ascii.eqb c "v"%char
  | EmptyString => false
  end.

(** ** Data that [list] can print *)

(** A history entry with the four fields of a sync event. *)
Definition complete_entry (entry : pyval) : bool :=
  match entry with
  | PDict d =>
      forallb (fun k => match dict_get (KStr k) d with Some _ => true | None => false end)
        ["timestamp"; "upstream_version"; "nad_version"; "trigger_type"]
  | _ => false
  end.

(** The record [load_version_mapping] returns in [w] has complete
    history entries and a mapping with [str] keys only. *)
Definition listable (w : world) : bool :=
  match load_version_mapping w with
  | (Ok (data, _), _) =>
      match dict_get (KStr "sync_history") data,
            dict_get (KStr "version_mappings") data with
      | Some (PList h), Some (PDict vm) =>
          forallb complete_entry h && forallb is_kstr (dict_keys vm)
      | _, _ => false
      end
  | _ => false
  end.

(** ** Sample inputs *)

Definition sample_call (i : nat) : call :=
  Call "2025-01-01T00:00:00Z" (String (ascii_of_nat (65 + i)) "") "nad" "manual".

(** Twenty-one calls with the upstream versions ["A"], ["B"], ... *)
Definition sample_calls : list call := map sample_call (seq 0 21).

(** The record the first sample call writes into an empty store. *)
Definition sample_record : pydict :=
  record_of (PStr DEFAULT_DESCRIPTION)
            (PDict [(KStr "A", PStr "nad")])
            (PList [event_of (sample_call 0)])
            (event_of (sample_call 0)).

(** A release object with the tag [tag], as the upstream API returns it. *)
Definition release_with_tag (tag : string) : curl_outcome :=
  Completed (Some (PDict [(KStr "tag_name", PStr tag); (KStr "draft", PBool false)])).

(** A backing file whose only history entry lacks the [timestamp],
    [nad_version] and [trigger_type] fields. *)
Definition partial_history_file : file_content :=
  Foreign (Some (PDict
    [ (KStr "version_mappings", PDict [(KStr "33.0.0", PStr "33.0.0-no-aja")]);
      (KStr "sync_history", PList [PDict [(KStr "upstream_version", PStr "33.0.0")]]) ])).

Definition sample_env : env := Env "2025-01-01T00:00:00Z" (release_with_tag "v33.0.0").

(** A backing file whose history holds a number instead of an object. *)
Definition scalar_history_file : file_content :=
  Foreign (Some (PDict [(KStr "sync_history", PList [PInt 5])])).

#[local] Instance string_eq_dec : EqDecision string := String.string_dec.

(** ** Kinds of events *)

(** The events that change the file system. *)
Definition is_write (e : event) : bool :=
  match e with
  | FsMkdir | FsWrite => true
  | _ => false
  end.

(** The events that touch the file system at all. *)
Definition is_file_access (e : event) : bool :=
  match e with
  | FsExists | FsRead | FsMkdir | FsWrite => true
  | _ => false
  end.

(** ** The loaded record *)

(** The record [load_version_mapping] returns in [w]. *)
Definition loaded (w : world) : pydict :=
  match load_version_mapping w with
  | (Ok (data, _), _) => data
  | _ => []
  end.

Definition description_of (data : pydict) : pyval :=
  dict_get_default "description" PNone data.

Definition mappings_of (data : pydict) : pydict :=
  match dict_get (KStr "version_mappings") data with
  | Some (PDict vm) => vm
  | _ => []
  end.

Definition history_of (data : pydict) : list pyval :=
  match dict_get (KStr "sync_history") data with
  | Some (PList h) => h
  | _ => []
  end.

Definition last_sync_of (data : pydict) : pyval :=
  dict_get_default "last_sync" PNone data.

(** The history after a call for [c]: the entries for other versions,
    then the new event, cut to the last [MAX_HISTORY]. *)
Definition history_after (c : call) (h : list pyval) : list pyval :=
  lastn MAX_HISTORY
    (List.filter (fun e => negb (entry_for (call_upstream c) e)) h ++ [event_of c]).

(** ** The report of [list] *)

(** The field [k] of a history entry. *)
Definition entry_field (k : string) (entry : pyval) : pyval :=
  match entry with
  | PDict d => dict_get_default k PNone d
  | _ => PNone
  end.

(** The history lines for [entries], numbered from [idx]. *)
Fixpoint history_lines (idx : nat) (entries : list pyval) : list event :=
  match entries with
  | [] => []
  | entry :: rest =>
      Stdout (MsgHistoryLine idx (entry_field "timestamp" entry)
                (entry_field "upstream_version" entry)
                (entry_field "nad_version" entry)
                (entry_field "trigger_type" entry))
      :: history_lines (S idx) rest
  end.

(** The mapping line of one item: flagged when the NAD version is the
    upstream version followed by ["-no-aja"]. *)
Definition mapping_line (item : pykey * pyval) : event :=
  Stdout (MsgMappingLine (is_str (key_str (fst item) ++ "-no-aja") (snd item))
            (fst item) (snd item)).

(** What [list] prints for a history [h] and the sorted mapping items. *)
Definition report (h : list pyval) (items : list (pykey * pyval)) : list event :=
  match h, items with
  | [], [] => [Stdout MsgNoData]
  | _, _ =>
      (match h with
       | [] => []
       | _ => Stdout MsgHistoryHeader :: history_lines 1 (rev h)
       end)
      ++ (match items with
          | [] => []
          | _ => Stdout MsgMappingHeader :: map mapping_line items
          end)
  end.

(** The order of two items with [str] keys: not after. *)
Definition item_le (a b : pykey * pyval) : Prop :=
  match fst a, fst b with
  | KStr s, KStr t => String.ltb t s = false
  | _, _ => False
  end.

(** ** The store the tool builds *)

(** What the tool keeps true of the store it builds from nothing: the
    mapping of the template is a JSON object; the file is absent, with
    the template still the literal one, or was left truncated by a write
    that failed, or holds a record whose history holds events of valid
    calls, at most [MAX_HISTORY] of them and at most one for an upstream
    version, and whose mapping, a JSON object, maps the version of every
    history entry to its NAD version. *)
Definition store_invariant (w : world) : Prop :=
  is_json (PDict (shared_mappings w)) = true
  /\ match file w with
     | None => shared_mappings w = []
     | Some (Written (PDict data)) =>
         exists desc vm calls ls,
           data = record_of desc (PDict vm) (PList (map event_of calls)) ls
           /\ is_json (PDict vm) = true
           /\ length calls <= MAX_HISTORY
           /\ NoDup (map call_upstream calls)
           /\ Forall (fun c => dict_get (KStr (call_upstream c)) vm
                               = Some (PStr (call_nad c))) calls
     | Some (Foreign None) => True
     | Some _ => False
     end.

(** ** Loading and writing back *)

(** [_write_mapping(load_version_mapping())] *)
Definition rewrite_store : M unit :=
  do* loaded := load_version_mapping in _write_mapping (fst loaded).

(** ** The dispatch of [main] *)

(** The part of [main] after [parse_args]: the command named by the
    parsed arguments is run. *)
Definition dispatch (e : env) (args : namespace) : M Z :=
  if command_is args "get-upstream" then
    do* version := get_upstream_version (curl e) in
    match version with
    | None => ret 1%Z
    | Some v => do* _ := print (MsgUpstream v) in ret 0%Z
    end
  else if command_is args "save-mapping" then
    try_except
      (do* _ := save_version_mapping (now e) (upstream_version args)
                  (nad_version args) (trigger_type args) in
       ret 0%Z)
      (fun exc => do* _ := eprint (MsgSaveFailed exc) in ret 1%Z)
  else if command_is args "list" then
    do* _ := list_mappings in ret 0%Z
  else
    do* _ := print MsgHelp in ret 0%Z.

(** The exit status and the world a finished [main] leaves. *)
Definition exit_of (r : result Z * world) : Z * world :=
  match r with
  | (Ok status, w') => (status, w')
  | (Raise (SystemExit status), w') => (status, w')
  | (Raise exc, w') =>
      (1%Z, World (file w') (shared_mappings w') (trace w' ++ [Stderr (MsgTraceback exc)]))
  end.

(** ** Calls and stores that can be written *)

(** The four strings of the call can be encoded. *)
Definition encodable_call (c : call) : bool :=
  encodable (call_now c) && encodable (call_upstream c)
  && encodable (call_nad c) && encodable (call_trigger c).

(** The record [load_version_mapping] returns in [w] can be dumped. *)
Definition encodable_store (w : world) : bool :=
  encodable_value (PDict (loaded w)).

Definition encodable_op (o : op) : bool :=
  match o with
  | OpRecord c => encodable_call c
  | _ => true
  end.

(** The record a valid call builds from the loaded one. *)
Definition record_after (c : call) (data : pydict) : pydict :=
  record_of (description_of data)
    (PDict (dict_set (KStr (call_upstream c)) (PStr (call_nad c)) (mappings_of data)))
    (PList (history_after c (history_of data)))
    (event_of c).

(** A call whose upstream version is the byte 0xFF, which no UTF-8 text
    holds: the argument reaches the program as a lone surrogate. *)
Definition undecodable_call : call :=
  Call "2025-01-02T00:00:00Z" (String (ascii_of_nat 255) "") "nad" "manual".

(** What the world holds can be encoded: the mapping of the template,
    and the record in the file when the program wrote it. *)
Definition encodable_world (w : world) : Prop :=
  encodable_value (PDict (shared_mappings w)) = true
  /\ forall data, file w = Some (Written data) -> encodable_value data = true.

(** The two ways a [save-mapping] command changes the file: it writes
    the record with the new event, or the write fails and leaves the file
    truncated. *)
Definition save_changed (e : env) (u n t : string) (st : Z) (w' : world) : Prop :=
  (st = 0%Z
   /\ stored "last_sync" w' = Some (PDict (make_entry (now e) u n t))
   /\ last_sync_of (loaded w') = PDict (make_entry (now e) u n t))
  \/ (st = 1%Z /\ file w' = Some (Foreign None)).

(** * Proofs *)

(** ** Slices *)

Section Slices.
Context {A : Type}.
Implicit Types l : list A.

Lemma lastn_length n l : length (lastn n l) = Nat.min n (length l).
Proof. unfold lastn. rewrite length_drop. lia. Qed.

Lemma lastn_le n l : length (lastn n l) <= n.
Proof. rewrite lastn_length. lia. Qed.

Lemma lastn_all n l : length l <= n -> lastn n l = l.
Proof.
  intros H. unfold lastn.
  replace (length l - n) with 0 by lia. reflexivity.
Qed.

Lemma lastn_app_long n l1 l2 :
  n <= length l2 -> lastn n (l1 ++ l2) = lastn n l2.
Proof.
  intros H. unfold lastn. rewrite length_app.
  replace (length l1 + length l2 - n) with (length l1 + (length l2 - n)) by lia.
  apply drop_app_add.
Qed.

Lemma lastn_app_short n l1 l2 :
  length l2 <= n -> lastn n (l1 ++ l2) = lastn (n - length l2) l1 ++ l2.
Proof.
  intros H. unfold lastn. rewrite length_app.
  replace (length l1 + length l2 - n) with (length l1 - (n - length l2)) by lia.
  rewrite drop_app_le by lia. reflexivity.
Qed.

Lemma lastn_last n l x : 0 < n -> last (lastn n (l ++ [x])) = Some x.
Proof.
  intros H. rewrite lastn_app_short by (simpl; lia). apply last_snoc.
Qed.

(** Truncating before the append loses nothing the later truncation
    would keep. *)
Lemma lastn_snoc n l x :
  0 < n -> lastn n (lastn n l ++ [x]) = lastn n (l ++ [x]).
Proof.
  intros H. rewrite !lastn_app_short by (simpl; lia). f_equal.
  unfold lastn. rewrite length_drop, drop_drop. f_equal. simpl. lia.
Qed.

Lemma lastn_suffix n l : exists front, l = front ++ lastn n l.
Proof. exists (take (length l - n) l). unfold lastn. symmetry. apply take_drop. Qed.
End Slices.

Lemma lastn_map {A B} (f : A -> B) n (l : list A) :
  lastn n (map f l) = map f (lastn n l).
Proof. unfold lastn. rewrite length_map. symmetry. apply (fmap_drop f). Qed.

Lemma forallb_lastn {A} (p : A -> bool) n (l : list A) :
  forallb p l = true -> forallb p (lastn n l) = true.
Proof.
  intros H. destruct (lastn_suffix n l) as [front E].
  rewrite E in H. rewrite forallb_app in H.
  apply andb_prop in H. tauto.
Qed.

Lemma lastn_lastn {A} n (l : list A) : lastn n (lastn n l) = lastn n l.
Proof. apply lastn_all, lastn_le. Qed.

(** ** Dictionaries *)

Lemma key_eqb_refl k : key_eqb k k = true.
Proof.
  destruct k as [| b | z | s]; simpl; auto using Z.eqb_refl, String.eqb_refl.
Qed.

Lemma dict_get_set_same k v d : dict_get k (dict_set k v d) = Some v.
Proof.
  induction d as [| [k' v'] d IH]; simpl.
  - now rewrite key_eqb_refl.
  - destruct (key_eqb k' k) eqn:E; simpl; rewrite E; auto.
Qed.

Lemma dict_keys_record a b c d : dict_keys (record_of a b c d) = SCHEMA_KEYS.
Proof. reflexivity. Qed.

Lemma fresh_key_get k d : fresh_key k d = true -> dict_get k d = None.
Proof.
  induction d as [| [k' v'] d IH]; simpl; auto.
  intros H. apply andb_prop in H as [H1 H2].
  apply negb_true_iff in H1. rewrite H1. auto.
Qed.

Lemma dict_set_fresh k v d : fresh_key k d = true -> dict_set k v d = d ++ [(k, v)].
Proof.
  induction d as [| [k' v'] d IH]; simpl; auto.
  intros H. apply andb_prop in H as [H1 H2].
  apply negb_true_iff in H1. rewrite H1, IH; auto.
Qed.

(** ** Induction on values *)

Lemma pyval_nested_ind (P : pyval -> Prop) :
  P PNone ->
  (forall b, P (PBool b)) ->
  (forall z, P (PInt z)) ->
  (forall s, P (PStr s)) ->
  (forall l, Forall P l -> P (PList l)) ->
  (forall d, Forall (fun kv => P (snd kv)) d -> P (PDict d)) ->
  forall v, P v.
Proof.
  intros HN HB HI HS HL HD. fix IH 1.
  intros [| b | z | s | l | d];
    [exact HN | apply HB | apply HI | apply HS | |].
  - apply HL. induction l as [| x l IHl]; constructor; [apply IH | exact IHl].
  - apply HD. induction d as [| [k x] d IHd]; constructor; [apply IH | exact IHd].
Qed.

(** ** Values that can be encoded *)

Lemma encodable_uint d : encodable (NilEmpty.string_of_uint d) = true.
Proof. induction d; simpl; auto. Qed.

Lemma encodable_int_repr z : encodable (int_repr z) = true.
Proof.
  unfold int_repr, NilZero.string_of_int.
  destruct (Z.to_int z) as [d | d].
  - unfold NilZero.string_of_uint. destruct d; try reflexivity; apply encodable_uint.
  - unfold NilZero.string_of_uint.
    destruct d; try reflexivity;
      match goal with
      | |- encodable (String "-" ?s) = true => change (encodable s = true)
      end; apply encodable_uint.
Qed.

Lemma encodable_json_key k : encodable_key k = true -> encodable (json_key k) = true.
Proof.
  destruct k as [| [] | z | s]; simpl; auto using encodable_int_repr.
Qed.

Lemma encodable_dict_cons k x d :
  encodable_value (PDict ((k, x) :: d))
  = encodable_key k && encodable_value x && encodable_value (PDict d).
Proof. reflexivity. Qed.

Lemma encodable_dict_set k x d :
  encodable_value (PDict d) = true -> encodable_key k = true ->
  encodable_value x = true ->
  encodable_value (PDict (dict_set k x d)) = true.
Proof.
  intros Hd Hk Hx. induction d as [| [k' v'] d IH].
  - simpl. now rewrite Hk, Hx.
  - rewrite encodable_dict_cons in Hd.
    apply andb_prop in Hd as [Hd Hrest]. apply andb_prop in Hd as [Hk' Hv'].
    cbn [dict_set]. destruct (key_eqb k' k).
    + now rewrite encodable_dict_cons, Hk', Hx, Hrest.
    + now rewrite encodable_dict_cons, Hk', Hv', (IH Hrest).
Qed.

Lemma encodable_get k d v :
  encodable_value (PDict d) = true -> dict_get k d = Some v ->
  encodable_value v = true.
Proof.
  induction d as [| [k' x] d IH]; [discriminate |].
  rewrite encodable_dict_cons. intros H. simpl.
  apply andb_prop in H as [H Hd]. apply andb_prop in H as [_ Hx].
  destruct (key_eqb k' k); [intros [= <-]; exact Hx | now apply IH].
Qed.

Lemma encodable_get_default k d :
  encodable_value (PDict d) = true ->
  encodable_value (dict_get_default k (PStr "") d) = true.
Proof.
  intros H. unfold dict_get_default.
  destruct (dict_get (KStr k) d) eqn:E; [| reflexivity].
  now apply (encodable_get _ _ _ H E).
Qed.

Lemma encodable_record a b c d :
  encodable_value (PDict (record_of a b c d))
  = encodable_value a && encodable_value b && encodable_value c && encodable_value d.
Proof.
  unfold record_of. rewrite !encodable_dict_cons.
  change (encodable_value (PDict [])) with true.
  change (encodable_key (KStr "description")) with true.
  change (encodable_key (KStr "version_mappings")) with true.
  change (encodable_key (KStr "sync_history")) with true.
  change (encodable_key (KStr "last_sync")) with true.
  cbn [andb]. rewrite andb_true_r, !andb_assoc. reflexivity.
Qed.

Lemma encodable_record_fields a b c d :
  encodable_value (PDict (record_of a b c d)) = true ->
  encodable_value a = true /\ encodable_value b = true
  /\ encodable_value c = true /\ encodable_value d = true.
Proof.
  rewrite encodable_record. intros H.
  apply andb_prop in H as [H Hd]. apply andb_prop in H as [H Hc].
  apply andb_prop in H as [Ha Hb]. auto.
Qed.

Lemma encodable_list_app l1 l2 :
  encodable_value (PList (l1 ++ l2))
  = encodable_value (PList l1) && encodable_value (PList l2).
Proof. simpl. apply forallb_app. Qed.

Lemma encodable_list_filter (p : pyval -> bool) l :
  encodable_value (PList l) = true -> encodable_value (PList (List.filter p l)) = true.
Proof.
  simpl. rewrite !forallb_forall. intros H x Hx.
  apply filter_In in Hx as [Hx _]. auto.
Qed.

Lemma encodable_list_lastn n l :
  encodable_value (PList l) = true -> encodable_value (PList (lastn n l)) = true.
Proof. simpl. apply forallb_lastn. Qed.

(** The event of a call can be encoded exactly when its four strings
    can: an empty trigger type is written as ["auto"]. *)
Lemma encodable_event c : encodable_value (event_of c) = encodable_call c.
Proof.
  unfold event_of, make_entry, encodable_call.
  rewrite !encodable_dict_cons. cbn [encodable_value].
  change (encodable_key (KStr "timestamp")) with true.
  change (encodable_key (KStr "upstream_version")) with true.
  change (encodable_key (KStr "nad_version")) with true.
  change (encodable_key (KStr "trigger_type")) with true.
  assert (Ht : encodable (if String.eqb (call_trigger c) "" then "auto" else call_trigger c)
               = encodable (call_trigger c)).
  { destruct (String.eqb_spec (call_trigger c) "") as [-> | _]; reflexivity. }
  rewrite Ht. cbn [forallb andb]. rewrite andb_true_r, !andb_assoc. reflexivity.
Qed.

Lemma encodable_reload v :
  encodable_value v = true -> encodable_value (json_reload v) = true.
Proof.
  induction v as [| b | z | s | l IHl | d IHd] using pyval_nested_ind; auto.
  - simpl. intros H. induction IHl as [| x l Hx _ IH]; simpl in *; [reflexivity |].
    apply andb_prop in H as [H1 H2]. now rewrite Hx, IH.
  - intros H.
    change (json_reload (PDict d)) with
      (PDict (fold_left
                (fun acc kv => dict_set (KStr (json_key (fst kv))) (json_reload (snd kv)) acc)
                d [])).
    assert (Hacc : encodable_value (PDict []) = true) by reflexivity.
    revert Hacc. generalize (@nil (pykey * pyval)).
    induction IHd as [| [k x] d Hx _ IH]; intros acc Hacc; simpl; [exact Hacc |].
    rewrite encodable_dict_cons in H.
    apply andb_prop in H as [H Hd]. apply andb_prop in H as [Hk Hv].
    apply IH; [exact Hd |].
    apply encodable_dict_set; auto. simpl. now apply encodable_json_key.
Qed.

Lemma encodable_norm_last_sync v :
  encodable_value v = true -> encodable_value (PDict (norm_last_sync v)) = true.
Proof.
  destruct v as [| b | z | s | l | d]; try reflexivity.
  intros H. cbn [norm_last_sync]. unfold sync_event. rewrite !encodable_dict_cons.
  rewrite !(encodable_get_default _ d H). reflexivity.
Qed.

Lemma encodable_history_after c h :
  encodable_call c = true -> encodable_value (PList h) = true ->
  encodable_value (PList (history_after c h)) = true.
Proof.
  intros Hc Hh. unfold history_after. apply encodable_list_lastn.
  rewrite encodable_list_app, encodable_list_filter by assumption.
  cbn [encodable_value forallb andb]. now rewrite encodable_event, Hc.
Qed.

(** ** JSON documents survive a dump and a load *)

Lemma key_eqb_sym a b : key_eqb a b = key_eqb b a.
Proof.
  destruct a as [| x | x | x], b as [| y | y | y]; simpl;
    auto using Z.eqb_sym, String.eqb_sym.
Qed.

Lemma fresh_key_app k d1 d2 :
  fresh_key k (d1 ++ d2) = fresh_key k d1 && fresh_key k d2.
Proof.
  induction d1 as [| [k' v'] d1 IH]; simpl; auto.
  now rewrite IH, andb_assoc.
Qed.

Lemma fresh_after k x acc d :
  fresh_key k d = true ->
  Forall (fun kv => fresh_key (fst kv) acc = true) d ->
  Forall (fun kv => fresh_key (fst kv) (acc ++ [(k, x)]) = true) d.
Proof.
  induction d as [| [k' x'] d IH]; intros Hfresh Hfr; constructor;
    inversion Hfr as [| ? ? Hk' Hrest]; subst;
    cbn [fresh_key] in Hfresh; apply andb_prop in Hfresh as [Hne Hfresh].
  - cbn [fst] in *. rewrite fresh_key_app, Hk'. cbn [fresh_key andb].
    rewrite key_eqb_sym, Hne. reflexivity.
  - now apply IH.
Qed.

(** The keys of a JSON object reload one after the other, each behind
    the ones before it. *)
Lemma reload_object d :
  forall acc,
    is_json (PDict d) = true ->
    Forall (fun kv => is_json (snd kv) = true -> json_reload (snd kv) = snd kv) d ->
    Forall (fun kv => fresh_key (fst kv) acc = true) d ->
    fold_left
      (fun acc kv => dict_set (KStr (json_key (fst kv))) (json_reload (snd kv)) acc)
      d acc
    = acc ++ d.
Proof.
  induction d as [| [k x] d IH]; intros acc Hj Hst Hfr; simpl.
  - now rewrite app_nil_r.
  - simpl in Hj.
    apply andb_prop in Hj as [Hj Hgo]. apply andb_prop in Hj as [Hj Hx].
    apply andb_prop in Hj as [Hk Hfresh].
    inversion Hst as [| ? ? Hsx Hst']; subst. inversion Hfr as [| ? ? Hfk Hfr']; subst.
    simpl in Hsx, Hfk. destruct k as [| | | s]; try discriminate. simpl.
    rewrite Hsx by assumption. rewrite dict_set_fresh by assumption.
    rewrite IH; [now rewrite <- app_assoc | exact Hgo | exact Hst' |].
    now apply fresh_after.
Qed.

Lemma json_reload_stable v : is_json v = true -> json_reload v = v.
Proof.
  induction v as [| b | z | s | l IHl | d IHd] using pyval_nested_ind; auto.
  - intros H. simpl in *. f_equal.
    induction IHl as [| x l Hx _ IH]; simpl in *; auto.
    apply andb_prop in H as [H1 H2]. now rewrite Hx, IH.
  - intros H. change (json_reload (PDict d)) with
      (PDict (fold_left
                (fun acc kv => dict_set (KStr (json_key (fst kv))) (json_reload (snd kv)) acc)
                d [])).
    rewrite reload_object; auto.
    clear. induction d; constructor; auto.
Qed.

Lemma json_reload_stable_list l :
  is_json (PList l) = true -> map json_reload l = l.
Proof.
  intros H. apply json_reload_stable in H. simpl in H. now injection H.
Qed.

(** ** Keys *)

Lemma key_eqb_trans a b c :
  key_eqb a b = true -> key_eqb a c = true -> key_eqb b c = true.
Proof.
  destruct a as [| x | x | x], b as [| y | y | y], c as [| z | z | z];
    simpl; try discriminate; auto;
    rewrite ?Z.eqb_eq, ?String.eqb_eq; congruence.
Qed.

Lemma dict_get_set_other k k2 v d :
  key_eqb k k2 = false -> dict_get k2 (dict_set k v d) = dict_get k2 d.
Proof.
  intros Hne. induction d as [| [k' v'] d IH]; simpl.
  - rewrite Hne. reflexivity.
  - destruct (key_eqb k' k) eqn:E; simpl.
    + destruct (key_eqb k' k2) eqn:E2; [| reflexivity].
      rewrite (key_eqb_trans k' k k2 E E2) in Hne. discriminate.
    + destruct (key_eqb k' k2); [reflexivity | exact IH].
Qed.

Lemma fresh_key_dict_set k k' x d :
  fresh_key k' d = true -> key_eqb k k' = false ->
  fresh_key k' (dict_set k x d) = true.
Proof.
  intros Hd Hne. induction d as [| [k2 v2] d IH]; simpl in *.
  - now rewrite Hne.
  - apply andb_prop in Hd as [H2 Hd].
    destruct (key_eqb k2 k); simpl; rewrite H2; simpl; auto.
Qed.

Lemma is_json_dict_cons k x d :
  is_json (PDict ((k, x) :: d))
  = is_kstr k && fresh_key k d && is_json x && is_json (PDict d).
Proof. reflexivity. Qed.

Lemma is_json_dict_set k x d :
  is_json (PDict d) = true -> is_kstr k = true -> is_json x = true ->
  is_json (PDict (dict_set k x d)) = true.
Proof.
  intros Hd Hk Hx. induction d as [| [k' v'] d IH].
  - simpl. now rewrite Hk, Hx.
  - rewrite is_json_dict_cons in Hd.
    apply andb_prop in Hd as [Hd Hrest]. apply andb_prop in Hd as [Hd Hv'].
    apply andb_prop in Hd as [Hk' Hfresh].
    cbn [dict_set]. destruct (key_eqb k' k) eqn:E.
    + rewrite is_json_dict_cons, Hk', Hfresh, Hx, Hrest. reflexivity.
    + rewrite is_json_dict_cons, Hk', Hv', (IH Hrest).
      rewrite fresh_key_dict_set; auto. now rewrite key_eqb_sym.
Qed.

Lemma is_json_list_app l1 l2 :
  is_json (PList (l1 ++ l2)) = is_json (PList l1) && is_json (PList l2).
Proof. simpl. apply forallb_app. Qed.

Lemma is_json_list_filter (p : pyval -> bool) l :
  is_json (PList l) = true -> is_json (PList (List.filter p l)) = true.
Proof.
  simpl. rewrite !forallb_forall. intros H x Hx.
  apply filter_In in Hx as [Hx _]. auto.
Qed.

Lemma is_json_list_lastn n l :
  is_json (PList l) = true -> is_json (PList (lastn n l)) = true.
Proof. simpl. apply forallb_lastn. Qed.

Lemma is_json_event c : is_json (event_of c) = true.
Proof. reflexivity. Qed.

Lemma is_json_history_after c h :
  is_json (PList h) = true -> is_json (PList (history_after c h)) = true.
Proof.
  intros H. unfold history_after. apply is_json_list_lastn.
  rewrite is_json_list_app, is_json_list_filter by assumption. reflexivity.
Qed.

Lemma is_json_reload v : is_json (json_reload v) = true.
Proof.
  induction v as [| b | z | s | l IHl | d IHd] using pyval_nested_ind; auto.
  - simpl. induction IHl as [| x l Hx _ IH]; simpl; [reflexivity |].
    now rewrite Hx, IH.
  - change (json_reload (PDict d)) with
      (PDict (fold_left
                (fun acc kv => dict_set (KStr (json_key (fst kv))) (json_reload (snd kv)) acc)
                d [])).
    assert (Hacc : is_json (PDict []) = true) by reflexivity.
    revert Hacc. generalize (@nil (pykey * pyval)).
    induction IHd as [| [k x] d Hx _ IH]; intros acc Hacc; simpl; [exact Hacc |].
    apply IH. apply is_json_dict_set; auto.
Qed.

Lemma is_json_get k d v :
  is_json (PDict d) = true -> dict_get k d = Some v -> is_json v = true.
Proof.
  induction d as [| [k' x] d IH]; [discriminate |].
  rewrite is_json_dict_cons. intros H. simpl.
  apply andb_prop in H as [H Hd]. apply andb_prop in H as [_ Hx].
  destruct (key_eqb k' k); [intros [= <-]; exact Hx | now apply IH].
Qed.

Lemma is_json_get_default k d :
  is_json (PDict d) = true -> is_json (dict_get_default k (PStr "") d) = true.
Proof.
  intros H. unfold dict_get_default.
  destruct (dict_get (KStr k) d) eqn:E; [| reflexivity].
  now apply (is_json_get _ _ _ H E).
Qed.

Lemma is_json_record a b c d :
  is_json (PDict (record_of a b c d)) = true ->
  is_json a = true /\ is_json b = true /\ is_json c = true /\ is_json d = true.
Proof.
  unfold record_of. rewrite !is_json_dict_cons. intros H.
  repeat (apply andb_prop in H as [H ?]).
  repeat match goal with
         | Hx : _ && _ = true |- _ => apply andb_prop in Hx as [? ?]
         end.
  auto.
Qed.

(** ** _ensure_schema *)

(** On a JSON object the function fails exactly when [dict(...)] does,
    and otherwise builds the four fields each from its own raw value. *)
Lemma ensure_schema_dict shared d :
  _ensure_schema shared (PDict d) =
  let* vm := py_dict (dict_get_default "version_mappings" (PDict []) d) in
  Ok (normalized d vm).
Proof.
  unfold _ensure_schema, normalized, py_in, py_getitem, py_get, dict_get_default.
  destruct (dict_get (KStr "description") d) as [desc |]; simpl;
    (destruct (py_dict _) as [vm | e]; simpl; [| reflexivity]);
    (destruct (dict_get (KStr "sync_history") d) as [[] |]; simpl);
    (destruct (dict_get (KStr "last_sync") d) as [[] |]; reflexivity).
Qed.

(** Anything else than an object makes it raise. *)
Lemma ensure_schema_not_dict shared raw :
  is_dict raw = false -> exists e, _ensure_schema shared raw = Raise e.
Proof.
  destruct raw as [| b | z | s | l | d]; simpl; intros H; try discriminate;
    unfold _ensure_schema; simpl; eauto.
  - destruct (is_substring _ _); simpl; eauto.
  - destruct (existsb _ _); simpl; eauto.
Qed.

Lemma ensure_schema_keys shared raw data :
  _ensure_schema shared raw = Ok data -> dict_keys data = SCHEMA_KEYS.
Proof.
  destruct (is_dict raw) eqn:E.
  - destruct raw; try discriminate. rewrite ensure_schema_dict.
    destruct (py_dict _); simpl; intros [= <-]. reflexivity.
  - destruct (ensure_schema_not_dict shared raw E) as [e ->]. discriminate.
Qed.

(** None of the value operations leaves the process. *)
Lemma pair_of_stays item : stays (pair_of item).
Proof.
  destruct item as [| b | z | s | l | d]; simpl; auto.
  - destruct (utf8_chars s) as [| a [| b [| c r]]]; simpl; auto.
  - destruct l as [| k [| v [| x r]]]; simpl; auto.
    destruct k; simpl; auto.
  - destruct d as [| [k1 v1] [| [k2 v2] [| x r]]]; simpl; auto.
Qed.

Lemma dict_of_pairs_stays items : forall acc, stays (dict_of_pairs acc items).
Proof.
  induction items as [| item rest IH]; intros acc; simpl; auto.
  pose proof (pair_of_stays item) as H.
  destruct (pair_of item) as [kv | e]; simpl; auto.
Qed.

Lemma py_dict_stays v : stays (py_dict v).
Proof.
  destruct v as [| b | z | s | l | d]; simpl; auto using dict_of_pairs_stays.
  destruct s; simpl; auto.
Qed.

Lemma ensure_schema_stays shared raw : stays (_ensure_schema shared raw).
Proof.
  destruct (is_dict raw) eqn:E.
  - destruct raw; try discriminate. rewrite ensure_schema_dict.
    pose proof (py_dict_stays (dict_get_default "version_mappings" (PDict []) d)) as H.
    destruct (py_dict _); simpl; auto.
  - destruct raw as [| b | z | s | l | d]; try discriminate;
      unfold _ensure_schema; simpl; auto.
    + destruct (is_substring _ _); simpl; auto.
    + destruct (existsb _ _); simpl; auto.
Qed.

(** ** load_version_mapping *)

Lemma parse_file_stays shared c : stays (parse_file shared c).
Proof.
  unfold parse_file. destruct c as [data | [raw |]]; simpl;
    auto using ensure_schema_stays.
Qed.

Lemma load_cases w :
  load_version_mapping w =
  match file w with
  | None =>
      (Ok (SCHEMA_TEMPLATE (shared_mappings w), true),
       log w [FsExists; Stdout MsgCreating])
  | Some c =>
      match parse_file (shared_mappings w) c with
      | Ok data => (Ok (data, false), log w [FsExists; FsRead])
      | Raise e =>
          (Ok (SCHEMA_TEMPLATE (shared_mappings w), true),
           log w [FsExists; FsRead; Stderr (MsgLoadFailed e)])
      end
  end.
Proof.
  destruct w as [f shared tr]. unfold load_version_mapping, log. simpl.
  unfold bind at 1. simpl. unfold bind at 1. simpl. unfold bind at 1. simpl.
  destruct f as [c |]; simpl.
  - pose proof (parse_file_stays shared c) as Hs.
    unfold parse_file in *. unfold try_except, bind, lift, emit, eprint, ret. simpl.
    destruct (json_load c) as [raw | e]; simpl in *.
    + destruct (_ensure_schema shared raw) as [data | e]; simpl in *;
        rewrite <- ?app_assoc; simpl; auto.
      destruct e; simpl; rewrite <- ?app_assoc; simpl; auto. contradiction.
    + destruct e; simpl; rewrite <- ?app_assoc; simpl; auto. contradiction.
  - unfold bind, print, emit, ret. simpl. rewrite <- app_assoc. reflexivity.
Qed.

Lemma ensure_schema_ok shared raw data :
  _ensure_schema shared raw = Ok data ->
  exists d vm,
    raw = PDict d /\
    py_dict (dict_get_default "version_mappings" (PDict []) d) = Ok vm /\
    data = normalized d vm.
Proof.
  intros H. destruct (is_dict raw) eqn:E.
  - destruct raw; try discriminate. rewrite ensure_schema_dict in H.
    destruct (py_dict _) as [vm |] eqn:Evm; simpl in H; [| discriminate].
    injection H as <-. eauto.
  - destruct (ensure_schema_not_dict shared raw E) as [e He].
    rewrite He in H. discriminate.
Qed.

Lemma norm_history_length v : length (norm_history v) <= MAX_HISTORY.
Proof. destruct v; simpl; try lia. apply lastn_le. Qed.

Lemma keep_other_versions_objects u h :
  forallb is_dict h = true ->
  keep_other_versions u h = Ok (List.filter (fun e => negb (entry_for u e)) h).
Proof.
  induction h as [| e h IH]; simpl; auto.
  intros H. apply andb_prop in H as [He Hh].
  destruct e; try discriminate. rewrite IH by assumption. simpl.
  unfold py_get_none. simpl. reflexivity.
Qed.

Lemma save_after_load now u n t w desc vm h ls aliased w1 :
  u <> "" -> n <> "" ->
  load_version_mapping w = (Ok (record_of desc (PDict vm) (PList h) ls, aliased), w1) ->
  save_version_mapping now u n t w =
  let entry := PDict (make_entry now u n t) in
  let vm' := dict_set (KStr u) (PStr n) vm in
  let shared' := if aliased then vm' else shared_mappings w1 in
  match keep_other_versions u h with
  | Ok kept =>
      let data := record_of desc (PDict vm')
                    (PList (lastn MAX_HISTORY (kept ++ [entry]))) entry in
      if encodable_value (PDict data)
      then (Ok tt,
            World (Some (Written (PDict data))) shared'
              (trace w1 ++ [FsMkdir; FsWrite;
                            Stdout (MsgUpdated u n (if String.eqb t "" then "auto" else t))]))
      else (Raise UnicodeEncodeError,
            World (Some (Foreign None)) shared'
              (trace w1 ++ [FsMkdir; FsWrite;
                            Stderr (MsgWriteFailed UnicodeEncodeError)]))
  | Raise e => (Raise e, World (file w1) shared' (trace w1))
  end.
Proof.
  intros Hu Hn Hload. unfold save_version_mapping.
  apply String.eqb_neq in Hu, Hn. rewrite Hu, Hn.
  unfold bind at 1. rewrite Hload. cbn [fst snd].
  destruct w1 as [f1 sh1 tr1].
  unfold set_mapping. cbn [record_of dict_get key_eqb]. simpl (String.eqb _ _). cbv iota.
  assert (Hwrite : forall sh data,
    try_except
      (do* _ := _write_mapping data in
       print (MsgUpdated u n (if String.eqb t "" then "auto" else t)))
      (fun exc => do* _ := eprint (MsgWriteFailed exc) in raise exc)
      (World f1 sh tr1)
    = if encodable_value (PDict data)
      then (Ok tt,
            World (Some (Written (PDict data))) sh
              (tr1 ++ [FsMkdir; FsWrite;
                       Stdout (MsgUpdated u n (if String.eqb t "" then "auto" else t))]))
      else (Raise UnicodeEncodeError,
            World (Some (Foreign None)) sh
              (tr1 ++ [FsMkdir; FsWrite; Stderr (MsgWriteFailed UnicodeEncodeError)]))).
  { intros sh data.
    unfold try_except, _write_mapping, bind, put_file, print, eprint, emit, raise, ret.
    cbn [file shared_mappings trace].
    destruct (encodable_value (PDict data)); cbn [file shared_mappings trace];
      rewrite <- !app_assoc; reflexivity. }
  destruct aliased; cbn [fst snd shared_mappings trace];
    unfold bind at 1; unfold bind at 1, put_shared, ret; cbn [file shared_mappings trace];
    unfold bind at 1, lift;
    match goal with
    | |- context [comprehension u ?x] =>
        change (comprehension u x) with (keep_other_versions u h)
    end;
    (destruct (keep_other_versions u h) as [kept | e]; [| reflexivity]);
    cbv zeta;
    exact (Hwrite _ (record_of desc (PDict (dict_set (KStr u) (PStr n) vm))
                       (PList (lastn MAX_HISTORY (kept ++ [PDict (make_entry now u n t)])))
                       (PDict (make_entry now u n t)))).
Qed.

(** ** Reloading what was written *)

Lemma json_reload_record desc vm h ls :
  json_reload (PDict (record_of desc vm h ls)) =
  PDict (record_of (json_reload desc) (json_reload vm) (json_reload h) (json_reload ls)).
Proof. reflexivity. Qed.

Lemma json_reload_event c : json_reload (event_of c) = event_of c.
Proof. reflexivity. Qed.

Lemma json_reload_is_dict v : is_dict (json_reload v) = is_dict v.
Proof. destruct v; reflexivity. Qed.

Lemma norm_last_sync_event c :
  norm_last_sync (event_of c) =
  make_entry (call_now c) (call_upstream c) (call_nad c) (call_trigger c).
Proof. reflexivity. Qed.

Lemma load_written w desc vm h ls :
  file w = Some (Written (PDict (record_of desc (PDict vm) (PList h) ls))) ->
  load_version_mapping w =
  (Ok (record_of (json_reload desc) (json_reload (PDict vm))
         (PList (lastn MAX_HISTORY (map json_reload h)))
         (PDict (norm_last_sync (json_reload ls))), false),
   log w [FsExists; FsRead]).
Proof.
  intros Hf. rewrite load_cases, Hf. unfold parse_file, json_load.
  rewrite json_reload_record. unfold rbind at 1. rewrite ensure_schema_dict.
  reflexivity.
Qed.

Lemma load_shape w :
  exists desc vm h ls aliased events,
    load_version_mapping w =
    (Ok (record_of desc (PDict vm) (PList h) (PDict ls), aliased), log w events)
    /\ length h <= MAX_HISTORY.
Proof.
  rewrite load_cases. destruct (file w) as [c |].
  - destruct (parse_file (shared_mappings w) c) as [data | e] eqn:E.
    + unfold parse_file in E. destruct (json_load c) as [raw |]; [| discriminate].
      simpl in E. apply ensure_schema_ok in E as (d & vm & -> & _ & ->).
      unfold normalized. do 6 eexists. split; [reflexivity |].
      apply norm_history_length.
    + exists (PStr DEFAULT_DESCRIPTION), (shared_mappings w), [], EMPTY_LAST_SYNC.
      do 2 eexists. split; [reflexivity | simpl; lia].
  - exists (PStr DEFAULT_DESCRIPTION), (shared_mappings w), [], EMPTY_LAST_SYNC.
    do 2 eexists. split; [reflexivity | simpl; lia].
Qed.

Lemma loaded_history_objects w :
  history_of_objects w = true ->
  exists desc vm h ls aliased events,
    load_version_mapping w =
    (Ok (record_of desc (PDict vm) (PList h) (PDict ls), aliased), log w events)
    /\ forallb is_dict h = true /\ length h <= MAX_HISTORY.
Proof.
  intros H. destruct (load_shape w) as (desc & vm & h & ls & al & evs & E & Hlen).
  unfold history_of_objects in H. rewrite E in H. simpl in H.
  exists desc, vm, h, ls, al, evs. auto.
Qed.

Lemma written_history_objects w desc vm h ls :
  file w = Some (Written (PDict (record_of desc (PDict vm) (PList h) ls))) ->
  forallb is_dict h = true ->
  history_of_objects w = true.
Proof.
  intros Hf Hh. unfold history_of_objects.
  rewrite (load_written _ _ _ _ _ Hf). simpl.
  apply forallb_lastn. rewrite forallb_forall in *.
  intros x Hx. apply in_map_iff in Hx as (y & <- & Hy).
  rewrite json_reload_is_dict. auto.
Qed.

Lemma keep_other_versions_raises u h :
  forallb is_dict h = false -> keep_other_versions u h = Raise AttributeError.
Proof.
  induction h as [| e h IH]; simpl; [discriminate |].
  intros H. destruct e; try reflexivity.
  simpl in H. rewrite (IH H). reflexivity.
Qed.

(** ** The loaded record *)

(** What [load_version_mapping] returns, by the fields of [loaded]. *)
Lemma load_loaded w :
  exists aliased events,
    load_version_mapping w = (Ok (loaded w, aliased), log w events)
    /\ loaded w = record_of (description_of (loaded w)) (PDict (mappings_of (loaded w)))
                    (PList (history_of (loaded w))) (last_sync_of (loaded w))
    /\ (aliased = true -> history_of (loaded w) = []
                          /\ mappings_of (loaded w) = shared_mappings w)
    /\ existsb is_write events = false.
Proof.
  unfold loaded. rewrite load_cases. destruct (file w) as [c |].
  - destruct (parse_file (shared_mappings w) c) as [data | e] eqn:E.
    + unfold parse_file in E. destruct (json_load c) as [raw |]; [| discriminate].
      simpl in E. apply ensure_schema_ok in E as (d & vm & -> & _ & ->).
      do 2 eexists. split; [reflexivity |]. split; [reflexivity |].
      split; [discriminate | reflexivity].
    + do 2 eexists. split; [reflexivity |]. split; [reflexivity |].
      split; [split; reflexivity | reflexivity].
  - do 2 eexists. split; [reflexivity |]. split; [reflexivity |].
    split; [split; reflexivity | reflexivity].
Qed.

Lemma history_of_objects_loaded w :
  history_of_objects w = forallb is_dict (history_of (loaded w)).
Proof.
  destruct (load_loaded w) as (al & evs & E & Hshape & _).
  unfold history_of_objects. rewrite E, Hshape. reflexivity.
Qed.

(** ** save_version_mapping *)

Lemma filter_keeps_objects (p : pyval -> bool) h :
  forallb is_dict h = true -> forallb is_dict (List.filter p h) = true.
Proof.
  rewrite !forallb_forall. intros H x Hx.
  apply filter_In in Hx as [Hx _]. auto.
Qed.

Lemma filter_drops_entries u h :
  forallb (fun e => negb (entry_for u e)) (List.filter (fun e => negb (entry_for u e)) h)
  = true.
Proof.
  rewrite forallb_forall. intros x Hx. apply filter_In in Hx as [_ Hx]. exact Hx.
Qed.

Lemma valid_call_versions c :
  valid_call c = true -> call_upstream c <> "" /\ call_nad c <> "".
Proof.
  unfold valid_call. intros H. apply andb_prop in H as [Hu Hn].
  apply negb_true_iff in Hu, Hn. now apply String.eqb_neq in Hu, Hn.
Qed.

Lemma encodable_call_fields c :
  encodable_call c = true ->
  encodable (call_now c) = true /\ encodable (call_upstream c) = true
  /\ encodable (call_nad c) = true /\ encodable (call_trigger c) = true.
Proof.
  unfold encodable_call. intros H.
  apply andb_prop in H as [H Ht]. apply andb_prop in H as [H Hn].
  apply andb_prop in H as [Hnow Hu]. auto.
Qed.

(** The record a call writes can be encoded when the loaded record and
    the call can. *)
Lemma encodable_written c desc vm h kept ls :
  encodable_value (PDict (record_of desc (PDict vm) (PList h) ls)) = true ->
  encodable_call c = true ->
  (forall x, In x kept -> In x h) ->
  encodable_value
    (PDict (record_of desc
              (PDict (dict_set (KStr (call_upstream c)) (PStr (call_nad c)) vm))
              (PList (lastn MAX_HISTORY (kept ++ [event_of c])))
              (event_of c))) = true.
Proof.
  intros Hdata Hc Hkept.
  apply encodable_record_fields in Hdata as (Hd & Hvm & Hh & _).
  destruct (encodable_call_fields c Hc) as (_ & Hu & Hn & _).
  rewrite encodable_record, Hd, encodable_event, Hc.
  rewrite encodable_dict_set by assumption.
  rewrite encodable_list_lastn; [reflexivity |].
  rewrite encodable_list_app. cbn [encodable_value forallb] in *.
  rewrite encodable_event, Hc, andb_true_r. cbn [andb].
  rewrite forallb_forall in *. auto.
Qed.

(** A valid call that can be encoded, in a state with a history of
    objects whose record can be encoded, succeeds; it writes a record
    whose history ends with the new event, after kept entries for other
    versions. *)
Lemma record_writes c w :
  valid_call c = true ->
  history_of_objects w = true ->
  encodable_store w = true ->
  encodable_call c = true ->
  exists desc vm kept shared events,
    record c w =
    (Ok tt,
     World (Some (Written (PDict
              (record_of desc
                 (PDict (dict_set (KStr (call_upstream c)) (PStr (call_nad c)) vm))
                 (PList (lastn MAX_HISTORY (kept ++ [event_of c])))
                 (event_of c)))))
           shared (trace w ++ events))
    /\ forallb is_dict kept = true
    /\ forallb (fun e => negb (entry_for (call_upstream c) e)) kept = true
    /\ encodable_value
         (PDict (record_of desc
                   (PDict (dict_set (KStr (call_upstream c)) (PStr (call_nad c)) vm))
                   (PList (lastn MAX_HISTORY (kept ++ [event_of c])))
                   (event_of c))) = true
    /\ (shared = shared_mappings w
        \/ shared = dict_set (KStr (call_upstream c)) (PStr (call_nad c)) vm).
Proof.
  intros Hv Hw Henc Hc. destruct (valid_call_versions c Hv) as [Hu Hn].
  destruct (loaded_history_objects w Hw)
    as (desc & vm & h & ls & al & evs & E & Hh & _).
  unfold encodable_store, loaded in Henc. rewrite E in Henc.
  assert (Hdata := encodable_written c desc vm h
            (List.filter (fun e => negb (entry_for (call_upstream c) e)) h) (PDict ls) Henc Hc
            (fun x Hx => proj1 (proj1 (filter_In _ _ _) Hx))).
  unfold record. rewrite (save_after_load _ _ _ _ _ _ _ _ _ _ _ Hu Hn E).
  cbv zeta. rewrite keep_other_versions_objects by assumption.
  fold (event_of c). rewrite Hdata.
  unfold log. cbn [trace shared_mappings]. rewrite <- app_assoc.
  do 5 eexists. split; [reflexivity |].
  split; [apply filter_keeps_objects; assumption |].
  split; [apply filter_drops_entries |].
  split; [exact Hdata |].
  destruct al; auto.
Qed.

(** Every write of the record operation leaves at most [MAX_HISTORY]
    entries. *)
Lemma record_ok_bounded c w w' :
  record c w = (Ok tt, w') ->
  exists h, stored_history w' = Some h /\ length h <= MAX_HISTORY.
Proof.
  unfold record. intros H.
  destruct (String.eqb (call_upstream c) "") eqn:Hu.
  { unfold save_version_mapping in H. rewrite Hu in H. discriminate. }
  destruct (String.eqb (call_nad c) "") eqn:Hn.
  { unfold save_version_mapping in H. rewrite Hu, Hn in H. discriminate. }
  apply String.eqb_neq in Hu, Hn.
  destruct (load_shape w) as (desc & vm & h & ls & al & evs & E & _).
  rewrite (save_after_load _ _ _ _ _ _ _ _ _ _ _ Hu Hn E) in H. cbv zeta in H.
  destruct (keep_other_versions _ h) as [kept | e]; [| discriminate].
  destruct (encodable_value _); [| discriminate].
  injection H as <-. eexists. split; [reflexivity | apply lastn_le].
Qed.

(** ** The outcome of a valid call *)

(** The outcome of a valid call, by the loaded record: it raises at the
    history filter, before any write, or in the write, which leaves the
    file truncated, or it succeeds. *)
Lemma record_outcome c w :
  valid_call c = true ->
  exists aliased events,
    existsb is_write events = false
    /\ (aliased = true -> history_of (loaded w) = []
                          /\ mappings_of (loaded w) = shared_mappings w)
    /\ record c w =
       let vm' := dict_set (KStr (call_upstream c)) (PStr (call_nad c))
                    (mappings_of (loaded w)) in
       let shared' := if aliased : bool then vm' else shared_mappings w in
       if forallb is_dict (history_of (loaded w))
       then if encodable_value (PDict (record_after c (loaded w)))
            then (Ok tt,
                  World (Some (Written (PDict (record_after c (loaded w)))))
                        shared'
                        (trace w ++ events
                         ++ [FsMkdir; FsWrite;
                             Stdout (MsgUpdated (call_upstream c) (call_nad c)
                                       (if String.eqb (call_trigger c) "" then "auto"
                                        else call_trigger c))]))
            else (Raise UnicodeEncodeError,
                  World (Some (Foreign None)) shared'
                        (trace w ++ events
                         ++ [FsMkdir; FsWrite;
                             Stderr (MsgWriteFailed UnicodeEncodeError)]))
       else (Raise AttributeError,
             World (file w) shared' (trace w ++ events)).
Proof.
  intros Hv. destruct (valid_call_versions c Hv) as [Hu Hn].
  destruct (load_loaded w) as (al & evs & E & Hshape & Hal & Hevs).
  exists al, evs. split; [exact Hevs |]. split; [exact Hal |].
  rewrite Hshape in E. unfold record.
  rewrite (save_after_load _ _ _ _ _ _ _ _ _ _ _ Hu Hn E). cbv zeta.
  destruct (forallb is_dict (history_of (loaded w))) eqn:Hh.
  - rewrite keep_other_versions_objects by assumption.
    unfold log, record_after, history_after. cbn [trace shared_mappings file].
    fold (event_of c). rewrite <- !app_assoc. reflexivity.
  - rewrite keep_other_versions_raises by assumption. reflexivity.
Qed.

Lemma encodable_store_fields w :
  encodable_store w = true ->
  encodable_value (description_of (loaded w)) = true
  /\ encodable_value (PDict (mappings_of (loaded w))) = true
  /\ encodable_value (PList (history_of (loaded w))) = true.
Proof.
  unfold encodable_store. destruct (load_loaded w) as (_ & _ & _ & Hshape & _).
  rewrite Hshape at 1. intros H.
  apply encodable_record_fields in H as (Hd & Hm & Hh & _). auto.
Qed.

(** The record a call builds can be encoded when the loaded record and
    the call can, and cannot when the call cannot. *)
Lemma encodable_record_after c w :
  encodable_store w = true -> encodable_call c = true ->
  encodable_value (PDict (record_after c (loaded w))) = true.
Proof.
  intros Hw Hc. destruct (encodable_store_fields w Hw) as (Hd & Hm & Hh).
  destruct (encodable_call_fields c Hc) as (_ & Hu & Hn & _).
  unfold record_after. rewrite encodable_record, Hd, encodable_event, Hc.
  rewrite encodable_dict_set by assumption.
  now rewrite encodable_history_after.
Qed.

Lemma unencodable_record_after c data :
  encodable_call c = false ->
  encodable_value (PDict (record_after c data)) = false.
Proof.
  intros Hc. unfold record_after. rewrite encodable_record, encodable_event, Hc.
  apply andb_false_r.
Qed.

(** ** Loading what a call wrote *)

Lemma is_json_record_of a b c d :
  is_json a = true -> is_json b = true -> is_json c = true -> is_json d = true ->
  is_json (PDict (record_of a b c d)) = true.
Proof.
  intros Ha Hb Hc Hd. unfold record_of. rewrite !is_json_dict_cons.
  rewrite Ha, Hb, Hc, Hd. reflexivity.
Qed.

Lemma is_json_norm_last_sync v :
  is_json v = true -> is_json (PDict (norm_last_sync v)) = true.
Proof.
  destruct v as [| b | z | s | l | d]; try reflexivity.
  intros H. cbn [norm_last_sync]. unfold sync_event. rewrite !is_json_dict_cons.
  rewrite !(is_json_get_default _ d H). reflexivity.
Qed.

(** What is loaded from a record the tool wrote is a JSON document. *)
Lemma is_json_loaded_written w desc vm h ls :
  file w = Some (Written (PDict (record_of desc (PDict vm) (PList h) ls))) ->
  is_json (PDict (loaded w)) = true.
Proof.
  intros Hf. unfold loaded. rewrite (load_written _ _ _ _ _ Hf).
  apply is_json_record_of.
  - apply is_json_reload.
  - apply is_json_reload.
  - apply is_json_list_lastn. apply (is_json_reload (PList h)).
  - apply is_json_norm_last_sync, is_json_reload.
Qed.

Lemma is_json_record_after c w :
  is_json (PDict (loaded w)) = true ->
  is_json (PDict (record_after c (loaded w))) = true.
Proof.
  intros Hjson. destruct (load_loaded w) as (_ & _ & _ & Hshape & _).
  rewrite Hshape in Hjson at 1. apply is_json_record in Hjson as (Hd & Hm & Hh & _).
  unfold record_after.
  apply is_json_record_of;
    auto using is_json_dict_set, is_json_history_after, is_json_event.
Qed.

(** A record built by a call from a JSON document loads as it is. *)
Lemma load_record_after c w w' :
  is_json (PDict (loaded w)) = true ->
  file w' = Some (Written (PDict (record_after c (loaded w)))) ->
  loaded w' = record_after c (loaded w).
Proof.
  intros Hjson Hf.
  pose proof (is_json_record_after c w Hjson) as Hafter.
  unfold record_after in *. apply is_json_record in Hafter as (Hd & Hm & Hh & _).
  unfold loaded at 1. rewrite (load_written _ _ _ _ _ Hf).
  rewrite (json_reload_stable _ Hd), (json_reload_stable _ Hm).
  rewrite (json_reload_stable_list _ Hh).
  unfold history_after at 1. rewrite lastn_lastn.
  fold (history_after c (history_of (loaded w))).
  rewrite json_reload_event. reflexivity.
Qed.

(** A valid call that can be encoded, on a JSON document with a history
    of objects that can be encoded, succeeds, and the next load returns
    the record it built. *)
Lemma record_loaded c w :
  valid_call c = true ->
  encodable_call c = true ->
  history_of_objects w = true ->
  encodable_store w = true ->
  is_json (PDict (loaded w)) = true ->
  exists w',
    record c w = (Ok tt, w')
    /\ file w' = Some (Written (PDict (record_after c (loaded w))))
    /\ loaded w' = record_after c (loaded w).
Proof.
  intros Hv Hc Hobj Henc Hjson.
  destruct (record_outcome c w Hv) as (al & evs & _ & _ & Hrec).
  rewrite history_of_objects_loaded in Hobj. rewrite Hobj in Hrec.
  rewrite (encodable_record_after c w Henc Hc) in Hrec. cbv zeta in Hrec.
  eexists. split; [exact Hrec |]. split; [reflexivity |].
  now apply (load_record_after c w).
Qed.

(** A valid call that can be encoded, in a state with a history of
    objects whose record can be encoded, succeeds, and the next load
    returns its event as the last sync. *)
Lemma record_succeeds c w :
  valid_call c = true ->
  encodable_call c = true ->
  history_of_objects w = true ->
  encodable_store w = true ->
  exists w',
    record c w = (Ok tt, w')
    /\ file w' = Some (Written (PDict (record_after c (loaded w))))
    /\ last_sync_of (loaded w') = event_of c.
Proof.
  intros Hv Hc Hobj Henc.
  destruct (record_outcome c w Hv) as (al & evs & _ & _ & Hrec).
  rewrite history_of_objects_loaded in Hobj. rewrite Hobj in Hrec.
  rewrite (encodable_record_after c w Henc Hc) in Hrec. cbv zeta in Hrec.
  eexists. split; [exact Hrec |]. split; [reflexivity |].
  unfold loaded at 1, record_after. erewrite load_written by reflexivity.
  reflexivity.
Qed.

(** ** Runs of calls with distinct versions *)

Lemma filter_all {A} (p : A -> bool) l :
  forallb p l = true -> List.filter p l = l.
Proof.
  induction l as [| x l IH]; simpl; auto.
  intros H. apply andb_prop in H as [-> H]. now rewrite IH.
Qed.

(** Filtering a truncated history, appending and truncating again: the
    events [E] that pass the filter stay a suffix, in their order. *)
Lemma lastn_filter_snoc {A} (p : A -> bool) n r E e :
  0 < n -> forallb p E = true ->
  exists r',
    lastn n (List.filter p (lastn n (r ++ E)) ++ [e]) = lastn n (r' ++ E ++ [e])
    /\ forall q, forallb q r = true -> forallb q r' = true.
Proof.
  intros Hn HE. destruct (le_lt_dec n (length E)) as [Hlong | Hshort].
  - exists []. split; [| reflexivity].
    rewrite (lastn_app_long n r E) by assumption.
    rewrite filter_all by (apply forallb_lastn; assumption).
    simpl. apply lastn_snoc; assumption.
  - exists (List.filter p (lastn (n - length E) r)). split.
    + rewrite (lastn_app_short n r E) by lia.
      rewrite List.filter_app, (filter_all p E) by assumption.
      now rewrite <- app_assoc.
    + intros q Hq. rewrite forallb_forall in *. intros x Hx.
      apply filter_In in Hx as [Hx _].
      destruct (lastn_suffix (n - length E) r) as [front Er].
      apply Hq. rewrite Er. apply in_or_app. now right.
Qed.

Lemma events_are_objects calls : forallb is_dict (map event_of calls) = true.
Proof. induction calls; simpl; auto. Qed.

Lemma events_reload calls : map json_reload (map event_of calls) = map event_of calls.
Proof. induction calls as [| c calls IH]; simpl; [| rewrite IH]; reflexivity. Qed.

Lemma entry_for_event u c : entry_for u (event_of c) = String.eqb (call_upstream c) u.
Proof. reflexivity. Qed.

Lemma events_of_other_versions u calls :
  ~ In u (map call_upstream calls) ->
  forallb (fun e => negb (entry_for u e)) (map event_of calls) = true.
Proof.
  induction calls as [| c calls IH]; intros H; [reflexivity |].
  simpl in H. cbn [map forallb]. rewrite entry_for_event.
  destruct (String.eqb_spec (call_upstream c) u) as [Heq | Hne]; simpl.
  - exfalso. apply H. now left.
  - apply IH. intros Hin. apply H. now right.
Qed.

(** What is loaded from a record just written can be encoded when the
    record can. *)
Lemma encodable_reloaded desc vm h ls :
  encodable_value (PDict (record_of desc (PDict vm) (PList h) ls)) = true ->
  encodable_value
    (PDict (record_of (json_reload desc) (json_reload (PDict vm))
              (PList (lastn MAX_HISTORY (map json_reload h)))
              (PDict (norm_last_sync (json_reload ls))))) = true.
Proof.
  intros H. apply encodable_record_fields in H as (Hd & Hvm & Hh & Hls).
  rewrite encodable_record.
  rewrite (encodable_reload _ Hd), (encodable_reload _ Hvm).
  rewrite (encodable_norm_last_sync _ (encodable_reload _ Hls)).
  rewrite encodable_list_lastn; [reflexivity |].
  exact (encodable_reload (PList h) Hh).
Qed.

Lemma written_encodable_store w desc vm h ls :
  file w = Some (Written (PDict (record_of desc (PDict vm) (PList h) ls))) ->
  encodable_value (PDict (record_of desc (PDict vm) (PList h) ls)) = true ->
  encodable_store w = true.
Proof.
  intros Hf H. unfold encodable_store, loaded.
  rewrite (load_written _ _ _ _ _ Hf). now apply encodable_reloaded.
Qed.

(** One call on a state whose loaded history is a truncation of
    [r ++ events of done]. *)
Lemma record_step c done w desc vm r ls aliased w1 :
  load_version_mapping w =
    (Ok (record_of desc (PDict vm)
           (PList (lastn MAX_HISTORY (r ++ map event_of done))) ls, aliased), w1) ->
  encodable_value
    (PDict (record_of desc (PDict vm)
              (PList (lastn MAX_HISTORY (r ++ map event_of done))) ls)) = true ->
  forallb is_dict r = true ->
  valid_call c = true ->
  encodable_call c = true ->
  ~ In (call_upstream c) (map call_upstream done) ->
  exists w' vm' r',
    record c w = (Ok tt, w')
    /\ file w' = Some (Written (PDict
         (record_of desc (PDict vm')
            (PList (lastn MAX_HISTORY (r' ++ map event_of (done ++ [c]))))
            (event_of c))))
    /\ encodable_value
         (PDict (record_of desc (PDict vm')
                   (PList (lastn MAX_HISTORY (r' ++ map event_of (done ++ [c]))))
                   (event_of c))) = true
    /\ forallb is_dict r' = true.
Proof.
  intros Hload Henc Hr Hv Hc Hnew. destruct (valid_call_versions c Hv) as [Hu Hn].
  assert (Hdata := encodable_written c _ _ _
            (List.filter (fun e => negb (entry_for (call_upstream c) e))
               (lastn MAX_HISTORY (r ++ map event_of done))) _ Henc Hc
            (fun x Hx => proj1 (proj1 (filter_In _ _ _) Hx))).
  unfold record. rewrite (save_after_load _ _ _ _ _ _ _ _ _ _ _ Hu Hn Hload).
  cbv zeta. rewrite keep_other_versions_objects.
  2:{ apply forallb_lastn. rewrite forallb_app, Hr. apply events_are_objects. }
  fold (event_of c). rewrite Hdata.
  destruct (lastn_filter_snoc (fun e => negb (entry_for (call_upstream c) e))
              MAX_HISTORY r (map event_of done) (event_of c))
    as (r' & E & Hq).
  { unfold MAX_HISTORY. lia. }
  { now apply events_of_other_versions. }
  rewrite E in Hdata |- *.
  assert (Hmap : map event_of done ++ [event_of c] = map event_of (done ++ [c]))
    by (now rewrite map_app).
  rewrite Hmap in Hdata |- *.
  do 3 eexists. split; [reflexivity |]. cbn [file].
  split; [reflexivity |]. split; [exact Hdata | now apply Hq].
Qed.

Lemma record_all_distinct calls :
  forall c done w desc vm r ls aliased w1,
    load_version_mapping w =
      (Ok (record_of desc (PDict vm)
             (PList (lastn MAX_HISTORY (r ++ map event_of done))) ls, aliased), w1) ->
    encodable_value
      (PDict (record_of desc (PDict vm)
                (PList (lastn MAX_HISTORY (r ++ map event_of done))) ls)) = true ->
    forallb is_dict r = true ->
    forallb valid_call (c :: calls) = true ->
    forallb encodable_call (c :: calls) = true ->
    NoDup (map call_upstream (done ++ c :: calls)) ->
    exists w' r',
      record_all (c :: calls) w = (Ok tt, w')
      /\ stored_history w' =
         Some (lastn MAX_HISTORY (r' ++ map event_of (done ++ c :: calls)))
      /\ history_of (loaded w') =
         lastn MAX_HISTORY (map json_reload r' ++ map event_of (done ++ c :: calls)).
Proof.
  induction calls as [| c2 calls IH];
    intros c done w desc vm r ls aliased w1 Hload Henc Hr Hv Hc Hnd.
  - simpl in Hv, Hc. rewrite andb_true_r in Hv, Hc.
    destruct (record_step c done w desc vm r ls aliased w1 Hload Henc Hr Hv Hc)
      as (w' & vm' & r' & Hrec & Hfile & _ & _).
    { rewrite map_app in Hnd. apply NoDup_app in Hnd as (_ & Hdis & _).
      intros Hin. apply list_elem_of_In in Hin.
      apply (Hdis _ Hin), list_elem_of_In. simpl. now left. }
    exists w', r'. split; [| split].
    + simpl. unfold bind. rewrite Hrec. reflexivity.
    + unfold stored_history, stored. rewrite Hfile. reflexivity.
    + unfold loaded. rewrite (load_written _ _ _ _ _ Hfile).
      unfold history_of, record_of. cbn [dict_get key_eqb]. simpl (String.eqb _ _).
      cbv iota. now rewrite <- lastn_map, lastn_lastn, map_app, events_reload.
  - change (forallb valid_call (c :: c2 :: calls))
      with (valid_call c && forallb valid_call (c2 :: calls)) in Hv.
    change (forallb encodable_call (c :: c2 :: calls))
      with (encodable_call c && forallb encodable_call (c2 :: calls)) in Hc.
    apply andb_prop in Hv as [Hvc Hvrest]. apply andb_prop in Hc as [Hcc Hcrest].
    destruct (record_step c done w desc vm r ls aliased w1 Hload Henc Hr Hvc Hcc)
      as (w' & vm' & r' & Hrec & Hfile & Henc' & Hr').
    { rewrite map_app in Hnd. apply NoDup_app in Hnd as (_ & Hdis & _).
      intros Hin. apply list_elem_of_In in Hin.
      apply (Hdis _ Hin), list_elem_of_In. simpl. now left. }
    pose proof (load_written _ _ _ _ _ Hfile) as Hload'.
    apply encodable_reloaded in Henc'.
    rewrite <- lastn_map, lastn_lastn, map_app, events_reload in Hload', Henc'.
    destruct (IH c2 (done ++ [c]) w' _ _ (map json_reload r') _ _ _ Hload' Henc')
      as (w'' & r'' & Hall & Hst & Hld).
    { rewrite forallb_forall in *. intros x Hx.
      apply in_map_iff in Hx as (y & <- & Hy).
      rewrite json_reload_is_dict. auto. }
    { assumption. }
    { assumption. }
    { now rewrite <- app_assoc. }
    exists w'', r''. split; [| split].
    + change (record_all (c :: c2 :: calls))
        with (bind (record c) (fun _ => record_all (c2 :: calls))).
      unfold bind at 1. rewrite Hrec. exact Hall.
    + rewrite Hst, <- app_assoc. reflexivity.
    + rewrite Hld, <- app_assoc. reflexivity.
Qed.

(** ** The bounded history *)

(** C5 as the code has it: after every write of the record operation
    [sync_history] has at most 20 entries, and so has the history that
    the next load returns after any record call, whether it wrote,
    failed in the write or raised before; and more than 20 calls with
    distinct, non-empty versions and arguments that UTF-8 can encode,
    from a state whose loaded record has a history of objects and can be
    encoded, all succeed and leave exactly the events of the last 20
    calls, oldest first, in the file and in what the next load
    returns. *)
Theorem sync_history_bound :
  (forall c w w',
     record c w = (Ok tt, w') ->
     exists h, stored_history w' = Some h /\ length h <= MAX_HISTORY)
  /\
  (forall c w, length (history_of (loaded (snd (record c w)))) <= MAX_HISTORY)
  /\
  (forall calls w,
     history_of_objects w = true ->
     encodable_store w = true ->
     forallb valid_call calls = true ->
     forallb encodable_call calls = true ->
     NoDup (map call_upstream calls) ->
     MAX_HISTORY < length calls ->
     exists w',
       record_all calls w = (Ok tt, w')
       /\ stored_history w' = Some (lastn MAX_HISTORY (map event_of calls))
       /\ history_of (loaded w') = lastn MAX_HISTORY (map event_of calls)
       /\ length (lastn MAX_HISTORY (map event_of calls)) = MAX_HISTORY).
Proof.
  split; [exact record_ok_bounded |].
  split.
  { intros c w. destruct (load_shape (snd (record c w)))
      as (desc & vm & h & ls & al & evs & E & Hlen).
    unfold loaded. rewrite E. exact Hlen. }
  intros calls w Hw Henc Hv Hc Hnd Hlen.
  destruct calls as [| c calls]; [simpl in Hlen; lia |].
  destruct (loaded_history_objects w Hw)
    as (desc & vm & h & ls & al & evs & Hload & Hh & Hhlen).
  unfold encodable_store, loaded in Henc. rewrite Hload in Henc.
  rewrite <- (lastn_all MAX_HISTORY h Hhlen) in Hload, Henc.
  rewrite <- (app_nil_r h) in Hload, Henc.
  destruct (record_all_distinct calls c [] w desc vm h (PDict ls) al _
              Hload Henc Hh Hv Hc Hnd)
    as (w' & r' & Hall & Hst & Hld).
  exists w'. split; [exact Hall |].
  simpl app in Hst, Hld. rewrite Hst, Hld.
  assert (Hn : MAX_HISTORY <= length (map event_of (c :: calls)))
    by (rewrite length_map; lia).
  split; [| split].
  - now rewrite lastn_app_long.
  - now rewrite lastn_app_long.
  - rewrite lastn_length. lia.
Qed.

Lemma sync_history_bound_witness :
  (exists h,
     stored_history (snd (record (sample_call 0) initial)) = Some h
     /\ length h <= MAX_HISTORY)
  /\
  (exists w',
     record_all sample_calls initial = (Ok tt, w')
     /\ stored_history w' = Some (lastn MAX_HISTORY (map event_of sample_calls))
     /\ history_of (loaded w') = lastn MAX_HISTORY (map event_of sample_calls)
     /\ length (lastn MAX_HISTORY (map event_of sample_calls)) = MAX_HISTORY).
Proof.
  split.
  - apply (proj1 sync_history_bound (sample_call 0) initial). reflexivity.
  - apply (proj2 (proj2 sync_history_bound) sample_calls initial).
    + reflexivity.
    + reflexivity.
    + reflexivity.
    + reflexivity.
    + apply (bool_decide_unpack _). vm_compute. exact I.
    + vm_compute. lia.
Defined.

(** From a state whose history holds a number instead of an object the
    twenty-one sample calls all raise and the history stays as it was,
    with one entry; and from the initial state a call whose version is
    not UTF-8 raises in the write and leaves a file that holds no
    history at all. *)
Lemma sync_history_bound_counterexample :
  let w := World (Some scalar_history_file) [] [] in
  forallb valid_call sample_calls = true
  /\ MAX_HISTORY < length sample_calls
  /\ record_all sample_calls w = (Raise AttributeError, log w [FsExists; FsRead])
  /\ history_of (loaded (snd (record_all sample_calls w))) = [PInt 5]
  /\ length (history_of (loaded (snd (record_all sample_calls w)))) <> MAX_HISTORY
  /\ valid_call undecodable_call = true
  /\ fst (record undecodable_call initial) = Raise UnicodeEncodeError
  /\ file (snd (record undecodable_call initial)) = Some (Foreign None)
  /\ stored_history (snd (record undecodable_call initial)) = None.
Proof. repeat split; try reflexivity. vm_compute. lia. discriminate. Qed.

(** ** Recording one version twice *)

Lemma filter_none {A} (p : A -> bool) l :
  forallb (fun x => negb (p x)) l = true -> List.filter p l = [].
Proof.
  induction l as [| x l IH]; simpl; auto.
  intros H. apply andb_prop in H as [Hx H].
  apply negb_true_iff in Hx. rewrite Hx. auto.
Qed.

(** After a call the history holds one entry for its upstream version,
    the new event. *)
Lemma history_after_one_entry c h :
  List.filter (entry_for (call_upstream c)) (history_after c h) = [event_of c].
Proof.
  unfold history_after.
  rewrite lastn_app_short by (simpl; unfold MAX_HISTORY; lia).
  rewrite List.filter_app, filter_none
    by (apply forallb_lastn, filter_drops_entries).
  cbn [List.filter app]. now rewrite entry_for_event, String.eqb_refl.
Qed.

(** C6 as the code has it: recording [u] twice, with non-empty versions
    and arguments that UTF-8 can encode, from a state whose loaded record
    has a history of objects and can be encoded, succeeds both times and
    leaves exactly one history entry for [u], the second event, at the
    end of the history, and the mapping of [u] is the second downstream
    version, in the file and in what the next load returns. *)
Theorem record_same_version_twice (w : world) (now1 now2 u v1 v2 t1 t2 : string) :
  history_of_objects w = true ->
  encodable_store w = true ->
  u <> "" -> v1 <> "" -> v2 <> "" ->
  encodable_call (Call now1 u v1 t1) = true ->
  encodable_call (Call now2 u v2 t2) = true ->
  exists w1 w2 h,
    save_version_mapping now1 u v1 t1 w = (Ok tt, w1)
    /\ save_version_mapping now2 u v2 t2 w1 = (Ok tt, w2)
    /\ stored_history w2 = Some h
    /\ history_of (loaded w2) = h
    /\ List.filter (entry_for u) h = [PDict (make_entry now2 u v2 t2)]
    /\ last h = Some (PDict (make_entry now2 u v2 t2))
    /\ stored_mapping u w2 = Some (PStr v2)
    /\ dict_get (KStr u) (mappings_of (loaded w2)) = Some (PStr v2).
Proof.
  intros Hw Henc Hu Hv1 Hv2 Hc1 Hc2.
  assert (Hvalid : forall now v t, v <> "" -> valid_call (Call now u v t) = true).
  { intros now v t Hv. unfold valid_call. simpl.
    apply String.eqb_neq in Hu, Hv. now rewrite Hu, Hv. }
  destruct (record_writes (Call now1 u v1 t1) w (Hvalid _ _ _ Hv1) Hw Henc Hc1)
    as (desc & vm & kept & sh & evs & Hrec1 & Hkept & _ & Hdata & _).
  set (w1 := World _ sh (trace w ++ evs)) in Hrec1.
  assert (Hf1 : file w1 = Some (Written (PDict
            (record_of desc (PDict (dict_set (KStr u) (PStr v1) vm))
               (PList (lastn MAX_HISTORY (kept ++ [event_of (Call now1 u v1 t1)])))
               (event_of (Call now1 u v1 t1)))))) by reflexivity.
  assert (Hw1 : history_of_objects w1 = true).
  { eapply written_history_objects; [exact Hf1 |].
    apply forallb_lastn. rewrite forallb_app, Hkept. reflexivity. }
  destruct (record_loaded (Call now2 u v2 t2) w1 (Hvalid _ _ _ Hv2) Hc2 Hw1
              (written_encodable_store _ _ _ _ _ Hf1 Hdata)
              (is_json_loaded_written _ _ _ _ _ Hf1))
    as (w2 & Hrec2 & Hf2 & Hld2).
  exists w1, w2, (history_after (Call now2 u v2 t2) (history_of (loaded w1))).
  split; [exact Hrec1 |]. split; [exact Hrec2 |].
  split; [unfold stored_history, stored; rewrite Hf2; reflexivity |].
  split; [rewrite Hld2; reflexivity |].
  split; [exact (history_after_one_entry (Call now2 u v2 t2) _) |].
  split; [apply lastn_last; unfold MAX_HISTORY; lia |].
  split.
  - unfold stored_mapping, stored. rewrite Hf2. unfold record_after.
    cbn [record_of dict_get key_eqb]. simpl (String.eqb _ _). cbv iota.
    apply dict_get_set_same.
  - rewrite Hld2. unfold mappings_of, record_after.
    cbn [record_of dict_get key_eqb]. simpl (String.eqb _ _). cbv iota.
    apply dict_get_set_same.
Qed.

Lemma record_same_version_twice_witness :
  exists w1 w2 h,
    save_version_mapping "2025-01-01T00:00:00Z" "33.0.0" "33.0.0-no-aja" "manual" initial
      = (Ok tt, w1)
    /\ save_version_mapping "2025-01-02T00:00:00Z" "33.0.0" "33.0.0-nad" "" w1
      = (Ok tt, w2)
    /\ stored_history w2 = Some h
    /\ history_of (loaded w2) = h
    /\ List.filter (entry_for "33.0.0") h
       = [PDict (make_entry "2025-01-02T00:00:00Z" "33.0.0" "33.0.0-nad" "")]
    /\ last h = Some (PDict (make_entry "2025-01-02T00:00:00Z" "33.0.0" "33.0.0-nad" ""))
    /\ stored_mapping "33.0.0" w2 = Some (PStr "33.0.0-nad")
    /\ dict_get (KStr "33.0.0") (mappings_of (loaded w2)) = Some (PStr "33.0.0-nad").
Proof.
  apply (record_same_version_twice initial);
    try reflexivity; discriminate.
Defined.

(** In a state whose history holds a number instead of an object, both
    calls raise at the history filter: the file stays as it was, there is
    no history entry for the version and no mapping for it. *)
Lemma record_same_version_twice_counterexample :
  let w := World (Some scalar_history_file) [] [] in
  let r1 := save_version_mapping "2025-01-01T00:00:00Z" "33.0.0" "33.0.0-no-aja" "manual" w in
  let r2 := save_version_mapping "2025-01-02T00:00:00Z" "33.0.0" "33.0.0-nad" "" (snd r1) in
  fst r1 = Raise AttributeError
  /\ fst r2 = Raise AttributeError
  /\ file (snd r2) = file w
  /\ List.filter (entry_for "33.0.0") (history_of (loaded (snd r2))) = []
  /\ dict_get (KStr "33.0.0") (mappings_of (loaded (snd r2))) = None.
Proof. repeat split. Qed.

(** ** Validation *)

Lemma save_rejects now u n t w :
  u = "" \/ n = "" ->
  save_version_mapping now u n t w
  = (Raise (ValueError (if String.eqb u "" then "缺少上游版本号" else "缺少 NAD 版本号")), w).
Proof.
  intros H. unfold save_version_mapping.
  destruct (String.eqb u "") eqn:Hu; [reflexivity |].
  destruct (String.eqb n "") eqn:Hn; [reflexivity |].
  apply String.eqb_neq in Hu, Hn. tauto.
Qed.

(** C7: with an empty upstream version or an empty NAD version the record
    operation raises a [ValueError] that names the missing argument, in
    the unchanged world: no file access was made and the backing file is
    as it was.  Through the command line this is exit status 1. *)
Theorem record_rejects_empty_version (e : env) (u n t : string) (w : world) :
  u = "" \/ n = "" ->
  let msg := if String.eqb u "" then "缺少上游版本号" else "缺少 NAD 版本号" in
  save_version_mapping (now e) u n t w = (Raise (ValueError msg), w)
  /\ (plain u = true -> plain n = true ->
      script e ["save-mapping"; u; n] w
      = Some (1%Z, log w [Stderr (MsgSaveFailed (ValueError msg))])).
Proof.
  intros H msg. split; [now apply save_rejects |]. intros Hpu Hpn.
  unfold script, main, parse_args. simpl. rewrite Hpu, Hpn. simpl.
  unfold bind at 1. unfold ret at 1. simpl.
  unfold try_except, bind. rewrite save_rejects by assumption. reflexivity.
Qed.

Lemma record_rejects_empty_version_witness :
  let e := Env "2025-01-01T00:00:00Z" LaunchError in
  (save_version_mapping (now e) "" "x" "manual" initial
     = (Raise (ValueError "缺少上游版本号"), initial)
   /\ script e ["save-mapping"; ""; "x"] initial
      = Some (1%Z, log initial [Stderr (MsgSaveFailed (ValueError "缺少上游版本号"))]))
  /\
  (save_version_mapping (now e) "x" "" "manual" initial
     = (Raise (ValueError "缺少 NAD 版本号"), initial)
   /\ script e ["save-mapping"; "x"; ""] initial
      = Some (1%Z, log initial [Stderr (MsgSaveFailed (ValueError "缺少 NAD 版本号"))])).
Proof.
  intros e. split.
  - destruct (record_rejects_empty_version e "" "x" "manual" initial) as [H1 H2];
      [now left |].
    split; [exact H1 | apply H2; reflexivity].
  - destruct (record_rejects_empty_version e "x" "" "manual" initial) as [H1 H2];
      [now right |].
    split; [exact H1 | apply H2; reflexivity].
Defined.

(** ** Operations that only print *)

Lemma log_nil w : log w [] = w.
Proof. destruct w. unfold log. simpl. now rewrite app_nil_r. Qed.

Lemma log_log w a b : log (log w a) b = log w (a ++ b).
Proof. unfold log. simpl. now rewrite app_assoc. Qed.

Lemma logs_only_ret {A} (a : A) : logs_only (ret a).
Proof. intros w. exists []. simpl. now rewrite log_nil. Qed.

Lemma logs_only_raise {A} e : logs_only (@raise A e).
Proof. intros w. exists []. simpl. now rewrite log_nil. Qed.

Lemma logs_only_lift {A} (r : result A) : logs_only (lift r).
Proof. intros w. exists []. simpl. now rewrite log_nil. Qed.

Lemma logs_only_emit e : logs_only (emit e).
Proof. intros w. exists [e]. reflexivity. Qed.

Lemma logs_only_bind {A B} (m : M A) (k : A -> M B) :
  logs_only m -> (forall a, logs_only (k a)) -> logs_only (bind m k).
Proof.
  intros Hm Hk w. unfold bind. destruct (Hm w) as [e1 H1].
  destruct (m w) as [[a | e] w1]; simpl in *; subst w1.
  - destruct (Hk a (log w e1)) as [e2 H2]. rewrite H2, log_log. eauto.
  - eauto.
Qed.

Lemma logs_only_try {A} (m : M A) (h : exn -> M A) :
  logs_only m -> (forall e, logs_only (h e)) -> logs_only (try_except m h).
Proof.
  intros Hm Hh w. unfold try_except. destruct (Hm w) as [e1 H1].
  destruct (m w) as [[a | e] w1]; simpl in *; subst w1; [eauto |].
  destruct e;
    match goal with
    | |- context [h ?x (log w e1)] =>
        destruct (Hh x (log w e1)) as [e2 H2]; rewrite H2, log_log; eauto
    | _ => eauto
    end.
Qed.

Lemma logs_only_print m : logs_only (print m).
Proof. apply logs_only_emit. Qed.

Lemma logs_only_eprint m : logs_only (eprint m).
Proof. apply logs_only_emit. Qed.

Lemma logs_only_load : logs_only load_version_mapping.
Proof.
  intros w. rewrite load_cases. destruct (file w); [destruct (parse_file _ _) |];
    simpl; eauto.
Qed.

Create HintDb logs.
#[local] Hint Resolve logs_only_ret logs_only_raise logs_only_lift logs_only_emit
  logs_only_print logs_only_eprint logs_only_bind logs_only_try logs_only_load : logs.

(** Splits a computation at its binds and closes the parts that only
    print. *)
Ltac logs :=
  repeat first
    [ solve [auto with logs]
    | apply logs_only_bind; [| intros ?]
    | apply logs_only_try; [| intros ?] ].

Lemma logs_only_print_history entries : forall idx, logs_only (print_history idx entries).
Proof.
  induction entries as [| entry rest IH]; intros idx; simpl; logs.
Qed.

Lemma logs_only_print_mappings items : logs_only (print_mappings items).
Proof.
  induction items as [| [upstream nad] rest IH]; simpl; logs.
Qed.

#[local] Hint Resolve logs_only_print_history logs_only_print_mappings : logs.

(** Listing makes no mutation: the backing file and the shared template
    are what they were. *)
Lemma logs_only_list_mappings : logs_only list_mappings.
Proof.
  unfold list_mappings. logs. cbv zeta.
  destruct (negb (py_truthy _) && negb (py_truthy _)); logs.
  - destruct (py_truthy _); logs.
    destruct (dict_get_default "sync_history" _ _); logs.
  - destruct (py_truthy _); logs.
    destruct (dict_get_default "version_mappings" _ _); logs.
Qed.

Lemma logs_only_get_upstream c : logs_only (get_upstream_version c).
Proof.
  unfold get_upstream_version. logs.
  destruct c as [stderr | | body]; logs.
  destruct (negb _); logs.
Qed.

(** ** The last sync event in reachable states *)

Lemma last_sync_is_file ev w w' :
  file w' = file w -> last_sync_is ev w -> last_sync_is ev w'.
Proof. intros E. destruct ev; simpl; now rewrite E. Qed.

Lemma last_sync_is_objects ev w : last_sync_is ev w -> history_of_objects w = true.
Proof.
  destruct ev as [e |]; simpl.
  - intros (desc & vm & h & Hf & Hh & _). eapply written_history_objects; eauto.
  - intros Hf. unfold history_of_objects. rewrite load_cases, Hf. reflexivity.
Qed.

Lemma last_sync_is_logs {A} (m : M A) ev w :
  logs_only m -> last_sync_is ev w -> last_sync_is ev (snd (m w)).
Proof.
  intros Hm. destruct (Hm w) as [events ->]. now apply last_sync_is_file.
Qed.

Lemma encodable_world_file w w' :
  file w' = file w -> shared_mappings w' = shared_mappings w ->
  encodable_world w -> encodable_world w'.
Proof. unfold encodable_world. intros -> ->. auto. Qed.

Lemma encodable_world_logs {A} (m : M A) w :
  logs_only m -> encodable_world w -> encodable_world (snd (m w)).
Proof.
  intros Hm. destruct (Hm w) as [events ->]. now apply encodable_world_file.
Qed.

Lemma encodable_default shared :
  encodable_value (PDict shared) = true ->
  encodable_value (PDict (SCHEMA_TEMPLATE shared)) = true.
Proof.
  intros H.
  change (SCHEMA_TEMPLATE shared)
    with (record_of (PStr DEFAULT_DESCRIPTION) (PDict shared) (PList [])
            (PDict EMPTY_LAST_SYNC)).
  rewrite encodable_record, H. reflexivity.
Qed.

(** In a reachable state whose world can be encoded, the loaded record
    can. *)
Lemma last_sync_is_store ev w :
  last_sync_is ev w -> encodable_world w -> encodable_store w = true.
Proof.
  intros H [Hshared Hfile]. destruct ev as [e |]; simpl in H.
  - destruct H as (desc & vm & h & Hf & _).
    eapply written_encodable_store; [exact Hf | exact (Hfile _ Hf)].
  - unfold encodable_store, loaded. rewrite load_cases, H.
    now apply encodable_default.
Qed.

Lemma last_sync_is_record c ev w :
  encodable_call c = true ->
  last_sync_is ev w -> encodable_world w ->
  last_sync_is (if valid_call c then Some (event_of c) else ev) (snd (record c w))
  /\ encodable_world (snd (record c w)).
Proof.
  intros Hc H Hw. destruct (valid_call c) eqn:Hv.
  - destruct (record_writes c w Hv (last_sync_is_objects _ _ H)
                (last_sync_is_store _ _ H Hw) Hc)
      as (desc & vm & kept & sh & evs & -> & Hkept & _ & Hdata & Hsh).
    split.
    + simpl. do 3 eexists. split; [reflexivity |]. split; [| split].
      * apply forallb_lastn. rewrite forallb_app, Hkept. reflexivity.
      * apply lastn_last. unfold MAX_HISTORY. lia.
      * now exists c.
    + split; cbn [snd file shared_mappings].
      * destruct Hsh as [-> | ->]; [exact (proj1 Hw) |].
        apply encodable_record_fields in Hdata as (_ & Hvm & _). exact Hvm.
      * intros data [= <-]. exact Hdata.
  - unfold record. rewrite save_rejects; [split; assumption |].
    unfold valid_call in Hv. apply andb_false_iff in Hv as [Hv | Hv];
      apply negb_false_iff, String.eqb_eq in Hv; auto.
Qed.

Lemma last_sync_is_run ops :
  forall ev w,
    forallb encodable_op ops = true ->
    last_sync_is ev w -> encodable_world w ->
    last_sync_is (last_recorded ops ev) (run ops w)
    /\ encodable_world (run ops w).
Proof.
  induction ops as [| o ops IH]; intros ev w Hops H Hw; simpl; [split; assumption |].
  cbn [forallb] in Hops. apply andb_prop in Hops as [Ho Hops].
  destruct o as [c | | c |]; simpl.
  - destruct (last_sync_is_record c ev w Ho H Hw) as [H' Hw']. now apply IH.
  - apply IH; [assumption | |].
    + apply last_sync_is_logs; [apply logs_only_list_mappings | exact H].
    + apply encodable_world_logs; [apply logs_only_list_mappings | exact Hw].
  - apply IH; [assumption | |].
    + apply last_sync_is_logs; [apply logs_only_get_upstream | exact H].
    + apply encodable_world_logs; [apply logs_only_get_upstream | exact Hw].
  - apply IH; [assumption | |].
    + eapply last_sync_is_file; [| exact H]. reflexivity.
    + split; [reflexivity | exact (proj2 Hw)].
Qed.

(** C8 as the code has it: in every state reached from the initial one
    by operations of the tool whose record calls have arguments that
    UTF-8 can encode, the [last_sync] that [load_version_mapping] returns
    is the event of the last record call that passed the validation,
    which is also the [last_sync] in the file and the last entry of its
    history; before any such call it is the placeholder of four empty
    strings and there is no file. *)
Theorem last_sync_is_most_recent_event (ops : list op) :
  forallb encodable_op ops = true ->
  let w := run ops initial in
  let ev := last_recorded ops None in
  (exists data aliased w',
     load_version_mapping w = (Ok (data, aliased), w')
     /\ dict_get (KStr "last_sync") data
        = Some (match ev with Some e => e | None => PDict EMPTY_LAST_SYNC end))
  /\ match ev with
     | Some e =>
         stored "last_sync" w = Some e
         /\ exists h, stored_history w = Some h /\ last h = Some e
     | None => file w = None
     end.
Proof.
  intros Hops w ev.
  assert (H : last_sync_is ev w).
  { apply last_sync_is_run; [exact Hops | reflexivity |].
    split; [reflexivity | discriminate]. }
  destruct ev as [e |]; simpl in H.
  - destruct H as (desc & vm & h & Hf & Hh & Hlast & c & ->). split.
    + rewrite (load_written _ _ _ _ _ Hf). do 3 eexists. split; reflexivity.
    + unfold stored_history, stored. rewrite Hf. simpl. eauto.
  - split; [| exact H]. rewrite load_cases, H. do 3 eexists. split; reflexivity.
Qed.

Lemma last_sync_is_most_recent_event_witness :
  let ops := [OpRecord (sample_call 0); OpList; Restart; OpRecord (sample_call 1)] in
  let w := run ops initial in
  (exists data aliased w',
     load_version_mapping w = (Ok (data, aliased), w')
     /\ dict_get (KStr "last_sync") data = Some (event_of (sample_call 1)))
  /\ stored "last_sync" w = Some (event_of (sample_call 1))
  /\ exists h, stored_history w = Some h /\ last h = Some (event_of (sample_call 1)).
Proof.
  intros ops.
  apply (last_sync_is_most_recent_event ops). reflexivity.
Defined.

(** After a first call has recorded its event, a call whose version is
    not UTF-8 raises in the write and leaves the file truncated: the next
    load returns the placeholder as [last_sync], which is neither of the
    two events, although events have been recorded. *)
Lemma last_sync_is_most_recent_event_counterexample :
  let ops := [OpRecord (sample_call 0); OpRecord undecodable_call] in
  let w := run ops initial in
  fst (record (sample_call 0) initial) = Ok tt
  /\ fst (record undecodable_call (run [OpRecord (sample_call 0)] initial))
     = Raise UnicodeEncodeError
  /\ file w = Some (Foreign None)
  /\ last_recorded ops None = Some (event_of undecodable_call)
  /\ last_sync_of (loaded w) = PDict EMPTY_LAST_SYNC
  /\ last_sync_of (loaded w) <> event_of undecodable_call
  /\ last_sync_of (loaded w) <> event_of (sample_call 0)
  /\ stored "last_sync" w = None.
Proof. repeat split; discriminate. Qed.

(** ** The fields of a loaded record *)

Lemma record_get_other k a b c d :
  ~ In (KStr k) SCHEMA_KEYS -> dict_get (KStr k) (record_of a b c d) = None.
Proof.
  intros H. unfold record_of. cbn [dict_get key_eqb].
  repeat match goal with
         | |- context [String.eqb ?x k] =>
             destruct (String.eqb_spec x k) as [E | _];
             [exfalso; apply H; subst k; unfold SCHEMA_KEYS, In; tauto |]
         end.
  reflexivity.
Qed.

(** The two outcomes of a write. *)
Lemma write_mapping_cases data w :
  _write_mapping data w
  = if encodable_value (PDict data)
    then (Ok tt,
          World (Some (Written (PDict data))) (shared_mappings w)
            (trace w ++ [FsMkdir; FsWrite]))
    else (Raise UnicodeEncodeError,
          World (Some (Foreign None)) (shared_mappings w)
            (trace w ++ [FsMkdir; FsWrite])).
Proof.
  unfold _write_mapping, bind, emit, put_file, raise.
  cbn [file shared_mappings trace].
  destruct (encodable_value (PDict data)); cbn [file shared_mappings trace];
    rewrite <- app_assoc; reflexivity.
Qed.

(** C10: whatever the backing file holds, the record that load returns
    has exactly the four keys of the schema, in schema order; any other
    top-level field of the raw input is gone, and so it is from the file
    once the record is written back, whether the write succeeds or
    leaves the file truncated; it succeeds when the record can be
    encoded, and the file then holds that record. *)
Theorem load_keeps_exactly_schema_keys (w : world) :
  exists data aliased w1,
    load_version_mapping w = (Ok (data, aliased), w1)
    /\ dict_keys data = SCHEMA_KEYS
    /\ (forall k, ~ In (KStr k) SCHEMA_KEYS -> dict_get (KStr k) data = None)
    /\ (forall k, ~ In (KStr k) SCHEMA_KEYS ->
        stored k (snd (_write_mapping data w1)) = None)
    /\ (encodable_value (PDict data) = true ->
        exists w2,
          _write_mapping data w1 = (Ok tt, w2)
          /\ file w2 = Some (Written (PDict data))).
Proof.
  destruct (load_shape w) as (desc & vm & h & ls & al & evs & E & _).
  do 3 eexists. split; [exact E |]. split; [reflexivity |].
  split; [intros k Hk; now apply record_get_other |].
  rewrite write_mapping_cases. split.
  - intros k Hk. destruct (encodable_value _); [| reflexivity].
    unfold stored. cbn [snd file]. now apply record_get_other.
  - intros ->. eexists. split; reflexivity.
Qed.

(** C1, at the input that breaks it: a file whose [version_mappings] is a
    number.  [dict(5)] raises, [load_version_mapping] catches the error
    and returns the whole default record, so the description, the history
    and the last sync of the file are dropped with it. *)
Theorem wrong_type_mappings_discard_other_fields :
  let event := PDict (sync_event (PStr "2025-01-01T00:00:00Z") (PStr "33.0.0")
                        (PStr "33.0.0-no-aja") (PStr "manual")) in
  let raw := PDict [ (KStr "description", PStr "custom");
                     (KStr "version_mappings", PInt 5);
                     (KStr "sync_history", PList [event]);
                     (KStr "last_sync", event) ] in
  let w := World (Some (Foreign (Some raw))) [] [] in
  _ensure_schema [] raw = Raise TypeError
  /\ load_version_mapping w
     = (Ok (record_of (PStr DEFAULT_DESCRIPTION) (PDict []) (PList [])
              (PDict EMPTY_LAST_SYNC), true),
        log w [FsExists; FsRead; Stderr (MsgLoadFailed TypeError)]).
Proof. split; reflexivity. Qed.

(** ** Loading and writing back *)

(** C9: when the backing file holds a well-formed record that the write
    operation produced, hence one whose strings it could encode, loading
    returns that very record, and writing it back leaves the file as it
    was: the same value is dumped with the same formatting, so the text
    is the same byte for byte. *)
Theorem load_write_is_noop (w : world) (data : pydict) :
  file w = Some (Written (PDict data)) ->
  well_formed data ->
  encodable_value (PDict data) = true ->
  exists w1 w2,
    load_version_mapping w = (Ok (data, false), w1)
    /\ _write_mapping data w1 = (Ok tt, w2)
    /\ file w2 = file w
    /\ option_map file_text (file w2) = Some (Some (json_dumps 0 (PDict data)))
    /\ option_map file_text (file w2) = option_map file_text (file w).
Proof.
  intros Hf Hwf Henc.
  destruct Hwf as [desc vm h ts up nad trig Hdesc Hvm Hh Hlen Hts Hup Hnad Htrig].
  rewrite (load_written _ _ _ _ _ Hf).
  rewrite (json_reload_stable desc Hdesc), (json_reload_stable (PDict vm) Hvm).
  rewrite (json_reload_stable_list h Hh), (lastn_all _ _ Hlen).
  change (norm_last_sync (json_reload (PDict (sync_event ts up nad trig))))
    with (sync_event (json_reload ts) (json_reload up) (json_reload nad)
            (json_reload trig)).
  rewrite (json_reload_stable ts Hts), (json_reload_stable up Hup),
    (json_reload_stable nad Hnad), (json_reload_stable trig Htrig).
  do 2 eexists. split; [reflexivity |].
  rewrite write_mapping_cases, Henc. split; [reflexivity |].
  rewrite Hf. repeat split.
Qed.

Lemma load_write_is_noop_witness :
  let w := snd (record (sample_call 0) initial) in
  exists w1 w2,
    load_version_mapping w = (Ok (sample_record, false), w1)
    /\ _write_mapping sample_record w1 = (Ok tt, w2)
    /\ file w2 = file w
    /\ option_map file_text (file w2) = Some (Some (json_dumps 0 (PDict sample_record)))
    /\ option_map file_text (file w2) = option_map file_text (file w).
Proof.
  intros w. apply (load_write_is_noop w sample_record); [reflexivity | | reflexivity].
  apply (well_formed_intro (PStr DEFAULT_DESCRIPTION) [(KStr "A", PStr "nad")]
           [event_of (sample_call 0)]
           (PStr "2025-01-01T00:00:00Z") (PStr "A") (PStr "nad") (PStr "manual"));
    try reflexivity.
  unfold MAX_HISTORY. simpl. lia.
Defined.

(** ** get_upstream_version *)

Lemma lstrip_v_run s :
  (exists n, s = (v_run n ++ lstrip_v s)%string)
  /\ starts_with_v (lstrip_v s) = false.
Proof.
  induction s as [| c s [[n IHn] IHs]]; simpl.
  - split; [exists 0; reflexivity | reflexivity].
  - destruct (Ascii.eqb_spec c "v") as [-> | Hc].
    + split; [| exact IHs]. exists (S n). simpl. now rewrite <- IHn.
    + split; [exists 0; reflexivity |]. simpl. now apply Ascii.eqb_neq.
Qed.

Lemma lstrip_v_other s : starts_with_v s = false -> lstrip_v s = s.
Proof. destruct s as [| c s]; simpl; [reflexivity |]. now intros ->. Qed.

(** C2 as the code has it: [lstrip] removes every leading ["v"], not
    only one.  For a release whose tag is a string the fetcher returns
    the tag without its whole run of leading ["v"], unchanged when the
    tag does not start with ["v"], and the absent result when nothing is
    left (an empty tag, or one made of ["v"] only); a release without a
    tag gives the absent result. *)
Theorem fetch_strips_every_leading_v (release : pydict) (w : world) :
  (forall tag,
     dict_get (KStr "tag_name") release = Some (PStr tag) ->
     fst (get_upstream_version (Completed (Some (PDict release))) w)
     = Ok (if String.eqb (lstrip_v tag) "" then None else Some (lstrip_v tag))
     /\ (exists n, tag = (v_run n ++ lstrip_v tag)%string)
     /\ starts_with_v (lstrip_v tag) = false
     /\ (starts_with_v tag = false -> lstrip_v tag = tag))
  /\ (dict_get (KStr "tag_name") release = None ->
      fst (get_upstream_version (Completed (Some (PDict release))) w) = Ok None).
Proof.
  split.
  - intros tag Htag. destruct (lstrip_v_run tag) as [Hrun Hnov].
    split; [| auto using lstrip_v_other].
    unfold get_upstream_version, bind, try_except, lift, emit, print, ret.
    unfold py_get_none, py_get, dict_get_default. rewrite Htag. simpl.
    destruct (String.eqb_spec tag "") as [-> | Hne]; simpl; [reflexivity |].
    destruct (String.eqb (lstrip_v tag) ""); reflexivity.
  - intros Htag.
    unfold get_upstream_version, bind, try_except, lift, emit, print, ret.
    unfold py_get_none, py_get, dict_get_default. rewrite Htag. reflexivity.
Qed.

Lemma fetch_strips_every_leading_v_witness :
  fst (get_upstream_version (release_with_tag "v33.0.0") initial) = Ok (Some "33.0.0")
  /\ fst (get_upstream_version (release_with_tag "33.0.0") initial) = Ok (Some "33.0.0")
  /\ fst (get_upstream_version (release_with_tag "") initial) = Ok None
  /\ fst (get_upstream_version (Completed (Some (PDict []))) initial) = Ok None.
Proof.
  split; [| split; [| split]].
  - apply (proj1 (fetch_strips_every_leading_v _ initial) "v33.0.0"). reflexivity.
  - apply (proj1 (fetch_strips_every_leading_v _ initial) "33.0.0"). reflexivity.
  - apply (proj1 (fetch_strips_every_leading_v _ initial) ""). reflexivity.
  - apply (proj2 (fetch_strips_every_leading_v [] initial)). reflexivity.
Defined.

(** The tag ["vv33.0.0"] loses both of its leading ["v"], where the
    specification has it lose one. *)
Lemma fetch_strips_single_v_counterexample :
  fst (get_upstream_version (release_with_tag "vv33.0.0") initial) = Ok (Some "33.0.0")
  /\ spec_strip_single_v "vv33.0.0" = "v33.0.0"
  /\ fst (get_upstream_version (release_with_tag "vv33.0.0") initial)
     <> Ok (Some (spec_strip_single_v "vv33.0.0")).
Proof. repeat split. discriminate. Qed.

(** ** The command line *)

(** C3 as the code has it: without arguments the dispatcher prints the
    help text and exits with status 0; a first argument that is a plain
    word but none of the three subcommands never reaches the dispatch,
    argparse rejects it as an invalid choice, with its usage message on
    the error stream and exit status 2, whatever follows it. *)
Theorem unrecognized_command_is_usage_error
    (e : env) (a : string) (rest : list string) (w : world) :
  script e [] w = Some (0%Z, log w [Stdout MsgHelp])
  /\ (plain a = true -> is_subcommand a = false ->
      script e (a :: rest) w = Some (2%Z, log w [Stderr MsgUsageError])).
Proof.
  split; [reflexivity |]. intros Hplain Hsub.
  assert (Hh : String.eqb a "-h" || String.eqb a "--help" = false).
  { destruct (String.eqb_spec a "-h") as [E | _]; [subst a; discriminate |].
    destruct (String.eqb_spec a "--help") as [E | _]; [subst a; discriminate |].
    reflexivity. }
  unfold script, main, parse_args. rewrite Hh, Hplain, Hsub. reflexivity.
Qed.

Lemma unrecognized_command_is_usage_error_witness :
  script sample_env [] initial = Some (0%Z, log initial [Stdout MsgHelp])
  /\ script sample_env ["deploy"; "now"] initial
     = Some (2%Z, log initial [Stderr MsgUsageError]).
Proof.
  destruct (unrecognized_command_is_usage_error sample_env "deploy" ["now"] initial)
    as [H0 H2].
  split; [exact H0 | apply H2; reflexivity].
Defined.

(** The command line [deploy] ends with exit status 2, not 0. *)
Lemma unrecognized_command_exits_zero_counterexample :
  script sample_env ["deploy"] initial = Some (2%Z, log initial [Stderr MsgUsageError])
  /\ ~ (exists w', script sample_env ["deploy"] initial = Some (0%Z, w')).
Proof. split; [reflexivity |]. intros [w' H]. discriminate. Qed.

(** ** list *)

(** C4, at the input that breaks it: with a history entry that lacks
    [timestamp], [list] prints the history header, then
    [entry['timestamp']] raises [KeyError]; nothing catches it, so the
    process ends with a traceback and exit status 1.  The file is not
    touched. *)
Theorem list_crashes_on_partial_entry :
  let w := World (Some partial_history_file) [] [] in
  list_mappings w
    = (Raise (KeyError "timestamp"),
       log w [FsExists; FsRead; Stdout MsgHistoryHeader])
  /\ script sample_env ["list"] w
     = Some (1%Z, log w [FsExists; FsRead; Stdout MsgHistoryHeader;
                         Stderr (MsgTraceback (KeyError "timestamp"))]).
Proof. split; reflexivity. Qed.

Lemma print_history_complete entries :
  forallb complete_entry entries = true ->
  forall idx w, exists events, print_history idx entries w = (Ok tt, log w events).
Proof.
  induction entries as [| entry rest IH]; intros H idx w.
  - exists []. simpl. now rewrite log_nil.
  - cbn [forallb] in H. apply andb_prop in H as [He Hrest].
    destruct entry as [| | | | | d]; try discriminate.
    cbn [complete_entry forallb] in He.
    repeat (apply andb_prop in He as [? He]).
    cbn [print_history py_getitem].
    repeat match goal with
           | Hk : match dict_get ?k d with _ => _ end = true |- _ =>
               destruct (dict_get k d); [clear Hk | discriminate Hk]
           end.
    unfold bind at 1, lift at 1. unfold bind at 1, lift at 1.
    unfold bind at 1, lift at 1. unfold bind at 1, lift at 1.
    unfold bind at 1, print at 1, emit at 1.
    match goal with
    | |- context [print_history ?i rest ?w1] =>
        destruct (IH Hrest i w1) as [events ->]
    end.
    eexists. unfold log. simpl. rewrite <- app_assoc. reflexivity.
Qed.

Lemma insert_item_strs x l :
  is_kstr (fst x) = true -> forallb is_kstr (dict_keys l) = true ->
  exists r, insert_item x l = Ok r /\ forallb is_kstr (dict_keys r) = true.
Proof.
  intros Hx. induction l as [| y l IH]; intros Hl; simpl.
  - eexists. split; [reflexivity |]. simpl. now rewrite Hx.
  - simpl in Hl. apply andb_prop in Hl as [Hy Hl].
    destruct x as [[| | | s] vx]; try discriminate.
    destruct y as [[| | | t] vy]; try discriminate.
    simpl. destruct (String.ltb s t).
    + eexists. split; [reflexivity |]. simpl. exact Hl.
    + destruct (IH Hl) as (r & -> & Hr). simpl.
      eexists. split; [reflexivity |]. simpl. exact Hr.
Qed.

Lemma sorted_items_strs d :
  forallb is_kstr (dict_keys d) = true ->
  exists r, sorted_items d = Ok r /\ forallb is_kstr (dict_keys r) = true.
Proof.
  induction d as [| x d IH]; intros H; simpl.
  - now exists [].
  - simpl in H. apply andb_prop in H as [Hx Hd].
    destruct (IH Hd) as (s & -> & Hs). simpl. now apply insert_item_strs.
Qed.

Lemma print_mappings_ok items :
  forall w, exists events, print_mappings items w = (Ok tt, log w events).
Proof.
  induction items as [| [upstream nad] rest IH]; intros w; simpl.
  - exists []. now rewrite log_nil.
  - unfold bind, print, emit.
    match goal with
    | |- context [print_mappings rest ?w1] => destruct (IH w1) as [events ->]
    end.
    eexists. unfold log. simpl. rewrite <- app_assoc. reflexivity.
Qed.

(** On data with complete history entries and [str] mapping keys [list]
    prints its report, or the notice when there is nothing to report,
    changes neither the file nor the template, and exits with status 0. *)
Lemma list_exits_zero_on_complete_data e w :
  listable w = true ->
  exists events,
    script e ["list"] w = Some (0%Z, log w events)
    /\ (file w = None -> shared_mappings w = [] ->
        events = [FsExists; Stdout MsgCreating; Stdout MsgNoData]).
Proof.
  intros H. unfold listable in H.
  destruct (load_shape w) as (desc & vm & h & ls & al & evs & E & _).
  rewrite E in H. simpl in H. apply andb_prop in H as [Hh Hvm].
  assert (Hlist : exists events,
             list_mappings w = (Ok tt, log w events)
             /\ (file w = None -> shared_mappings w = [] ->
                 events = [FsExists; Stdout MsgCreating; Stdout MsgNoData])).
  { pose proof (load_cases w) as Hcases.
    unfold list_mappings, bind at 1. rewrite E. cbv zeta. cbn [fst dict_get_default].
    change (dict_get_default "sync_history" (PList [])
              (record_of desc (PDict vm) (PList h) (PDict ls))) with (PList h).
    change (dict_get_default "version_mappings" (PDict [])
              (record_of desc (PDict vm) (PList h) (PDict ls))) with (PDict vm).
    destruct h as [| x h]; destruct vm as [| kv vm].
    - exists (evs ++ [Stdout MsgNoData]). split.
      + simpl. unfold print, emit, log. simpl. now rewrite app_assoc.
      + intros Hf Hs. rewrite Hf, E in Hcases.
        apply (f_equal (fun r => trace (snd r))) in Hcases. simpl in Hcases.
        apply app_inv_head in Hcases. now rewrite Hcases.
    - destruct (sorted_items_strs (kv :: vm) Hvm) as (items & Hsort & _).
      cbn [py_truthy negb andb]. unfold bind at 1, ret at 1.
      unfold bind at 1, print at 1, emit at 1. unfold bind at 1, lift at 1.
      rewrite Hsort.
      match goal with
      | |- context [print_mappings items ?w1] =>
          destruct (print_mappings_ok items w1) as [ev2 ->]
      end.
      eexists. split; [unfold log; simpl; rewrite <- !app_assoc; reflexivity |].
      intros Hf Hs. rewrite Hf, E in Hcases. rewrite Hs in Hcases. discriminate.
    - cbn [py_truthy negb andb]. unfold bind at 1. unfold bind at 1, print at 1, emit at 1.
      match goal with
      | |- context [print_history 1 ?l ?w1] =>
          destruct (print_history_complete l) with (idx := 1) (w := w1) as [ev2 ->]
      end.
      { rewrite forallb_forall in *. intros y Hy. apply Hh. now apply in_rev. }
      unfold ret. eexists.
      split; [unfold log; simpl; rewrite <- !app_assoc; reflexivity |].
      intros Hf Hs. rewrite Hf, E in Hcases. discriminate.
    - destruct (sorted_items_strs (kv :: vm) Hvm) as (items & Hsort & _).
      cbn [py_truthy negb andb]. unfold bind at 1. unfold bind at 1, print at 1, emit at 1.
      match goal with
      | |- context [print_history 1 ?l ?w1] =>
          destruct (print_history_complete l) with (idx := 1) (w := w1) as [ev2 ->]
      end.
      { rewrite forallb_forall in *. intros y Hy. apply Hh. now apply in_rev. }
      unfold bind at 1, print at 1, emit at 1. unfold bind at 1, lift at 1.
      rewrite Hsort.
      match goal with
      | |- context [print_mappings items ?w1] =>
          destruct (print_mappings_ok items w1) as [ev3 ->]
      end.
      eexists. split; [unfold log; simpl; rewrite <- !app_assoc; reflexivity |].
      intros Hf Hs. rewrite Hf, E in Hcases. discriminate. }
  destruct Hlist as (events & Hl & Hnotice).
  exists events. split; [| exact Hnotice].
  unfold script, main, parse_args. simpl. unfold bind at 1, ret at 1. simpl.
  unfold bind. rewrite Hl. reflexivity.
Qed.

(** ** Further facts about the normalization and the dump *)

(** A [version_mappings] that is a number, a boolean, [null] or a
    non-empty string makes [_ensure_schema] raise, whatever the other
    fields hold. *)
Lemma mappings_not_coercible shared d v :
  dict_get (KStr "version_mappings") d = Some v ->
  match v with
  | PNone | PBool _ | PInt _ => True
  | PStr s => s <> ""
  | _ => False
  end ->
  exists e, _ensure_schema shared (PDict d) = Raise e.
Proof.
  intros Hv Hbad. rewrite ensure_schema_dict. unfold dict_get_default. rewrite Hv.
  destruct v as [| b | z | s | l | vm]; simpl; eauto; try contradiction.
  destruct s; [contradiction | simpl; eauto].
Qed.

(** Bytes outside ASCII are written as they are. *)
Lemma escape_char_non_ascii c :
  128 <= nat_of_ascii c -> escape_char c = String c EmptyString.
Proof.
  intros H. unfold escape_char.
  repeat match goal with
         | |- context [(?a =? ?b)%nat] =>
             destruct (Nat.eqb_spec a b); [lia |]
         end.
  destruct (Nat.ltb_spec (nat_of_ascii c) 32); [lia | reflexivity].
Qed.

Lemma escape_default_description : escape DEFAULT_DESCRIPTION = DEFAULT_DESCRIPTION.
Proof. reflexivity. Qed.

(** ** The edges of the record operation *)

(** A history entry that is not an object has no [get]: the call raises
    before anything is written. *)
Lemma record_raises_on_scalar_entry :
  let w := World (Some scalar_history_file) [] [] in
  record (sample_call 0) w = (Raise AttributeError, log w [FsExists; FsRead])
  /\ history_of_objects w = false.
Proof. split; reflexivity. Qed.

(** The default record shares its mapping with [SCHEMA_TEMPLATE]: after a
    record call on a missing file the template holds the new mapping, and
    a later load of a missing file, in the same process, returns it. *)
Lemma template_mapping_is_shared :
  let w1 := snd (record (sample_call 0) initial) in
  shared_mappings w1 = [(KStr "A", PStr "nad")]
  /\ fst (load_version_mapping (World None (shared_mappings w1) []))
     = Ok (record_of (PStr DEFAULT_DESCRIPTION) (PDict [(KStr "A", PStr "nad")])
             (PList []) (PDict EMPTY_LAST_SYNC), true)
  /\ fst (load_version_mapping (run_op Restart (World None (shared_mappings w1) [])))
     = Ok (record_of (PStr DEFAULT_DESCRIPTION) (PDict []) (PList [])
             (PDict EMPTY_LAST_SYNC), true).
Proof. repeat split. Qed.

(** * Further properties of the code *)

(** ** Loading *)

(** X1: [load_version_mapping] never raises and never writes: in every
    world it returns a record, with a history list of at most
    [MAX_HISTORY] entries, and leaves the backing file and the template as
    they were; all it does to the file system is look and read. *)
Theorem load_is_total_and_read_only (w : world) :
  exists data aliased events h,
    load_version_mapping w = (Ok (data, aliased), log w events)
    /\ existsb is_write events = false
    /\ dict_get (KStr "sync_history") data = Some (PList h)
    /\ length h <= MAX_HISTORY.
Proof.
  rewrite load_cases. destruct (file w) as [c |].
  - destruct (parse_file (shared_mappings w) c) as [data | e] eqn:E.
    + unfold parse_file in E. destruct (json_load c) as [raw |]; [| discriminate].
      simpl in E. apply ensure_schema_ok in E as (d & vm & -> & _ & ->).
      do 4 eexists. split; [reflexivity |]. split; [reflexivity |].
      split; [reflexivity | apply norm_history_length].
    + do 4 eexists. split; [reflexivity |]. split; [reflexivity |].
      split; [reflexivity | simpl; lia].
  - do 4 eexists. split; [reflexivity |]. split; [reflexivity |].
    split; [reflexivity | simpl; lia].
Qed.

(** X2: when the backing file is missing, cannot be read or decoded, or
    holds a JSON value that is not an object, [load_version_mapping]
    returns the default record, whose mapping is the one of
    [SCHEMA_TEMPLATE] itself; a missing file is announced on the output
    stream and is not created, any other failure is reported on the error
    stream. *)
Theorem load_falls_back_to_default (w : world) :
  file w = None
  \/ file w = Some (Foreign None)
  \/ (exists raw, file w = Some (Foreign (Some raw)) /\ is_dict raw = false) ->
  exists events,
    load_version_mapping w
    = (Ok (record_of (PStr DEFAULT_DESCRIPTION) (PDict (shared_mappings w))
             (PList []) (PDict EMPTY_LAST_SYNC), true),
       log w events)
    /\ (file w = None -> events = [FsExists; Stdout MsgCreating])
    /\ (file w <> None ->
        exists e, events = [FsExists; FsRead; Stderr (MsgLoadFailed e)]).
Proof.
  intros H. rewrite load_cases.
  destruct H as [Hf | [Hf | (raw & Hf & Hraw)]]; rewrite Hf.
  - eexists. split; [reflexivity |]. split; [reflexivity | congruence].
  - eexists. split; [reflexivity |]. split; [discriminate | eauto].
  - unfold parse_file. simpl.
    destruct (ensure_schema_not_dict (shared_mappings w) raw Hraw) as [e ->].
    eexists. split; [reflexivity |]. split; [discriminate | eauto].
Qed.

Lemma load_falls_back_to_default_witness :
  exists events,
    load_version_mapping (World (Some (Foreign (Some (PList [PInt 1])))) [] [])
    = (Ok (record_of (PStr DEFAULT_DESCRIPTION) (PDict []) (PList [])
             (PDict EMPTY_LAST_SYNC), true),
       log (World (Some (Foreign (Some (PList [PInt 1])))) [] []) events)
    /\ (Some (Foreign (Some (PList [PInt 1]))) = None ->
        events = [FsExists; Stdout MsgCreating])
    /\ (Some (Foreign (Some (PList [PInt 1]))) <> None ->
        exists e, events = [FsExists; FsRead; Stderr (MsgLoadFailed e)]).
Proof.
  apply (load_falls_back_to_default (World (Some (Foreign (Some (PList [PInt 1])))) [] [])).
  right. right. exists (PList [PInt 1]). split; reflexivity.
Defined.

(** ** Normalization *)

(** X3: on a JSON object whose [version_mappings] is absent or an object,
    [_ensure_schema] does not raise, and each field of its result depends
    on the raw field of the same name only: the description is kept or
    defaulted, the mapping is copied, the history is cut to its last
    [MAX_HISTORY] items or emptied when it is not a list, and the last
    sync is rebuilt from its four known fields or left as the
    placeholder. *)
Theorem ensure_schema_normalizes_each_field (shared d : pydict) :
  dict_get (KStr "version_mappings") d = None
  \/ (exists vm, dict_get (KStr "version_mappings") d = Some (PDict vm)) ->
  exists data,
    _ensure_schema shared (PDict d) = Ok data
    /\ dict_get (KStr "description") data
       = Some (match dict_get (KStr "description") d with
               | Some v => v
               | None => PStr DEFAULT_DESCRIPTION
               end)
    /\ dict_get (KStr "version_mappings") data
       = Some (match dict_get (KStr "version_mappings") d with
               | Some v => v
               | None => PDict []
               end)
    /\ dict_get (KStr "sync_history") data
       = Some (match dict_get (KStr "sync_history") d with
               | Some (PList h) => PList (lastn MAX_HISTORY h)
               | _ => PList []
               end)
    /\ dict_get (KStr "last_sync") data
       = Some (match dict_get (KStr "last_sync") d with
               | Some (PDict ls) =>
                   PDict (sync_event (dict_get_default "timestamp" (PStr "") ls)
                            (dict_get_default "upstream_version" (PStr "") ls)
                            (dict_get_default "nad_version" (PStr "") ls)
                            (dict_get_default "trigger_type" (PStr "") ls))
               | Some _ => PDict EMPTY_LAST_SYNC
               | None => PDict (sync_event (PStr "") (PStr "") (PStr "") (PStr ""))
               end).
Proof.
  intros H. rewrite ensure_schema_dict. unfold normalized, dict_get_default.
  destruct H as [Hvm | [vm Hvm]]; rewrite Hvm; simpl;
    (eexists; split; [reflexivity |]);
    (split; [reflexivity |]); (split; [reflexivity |]); split.
  all: try (destruct (dict_get (KStr "sync_history") d) as [[] |]; reflexivity).
  all: destruct (dict_get (KStr "last_sync") d) as [[] |]; reflexivity.
Qed.

Lemma ensure_schema_normalizes_each_field_witness :
  exists data,
    _ensure_schema [] (PDict [(KStr "sync_history", PInt 3)]) = Ok data
    /\ dict_get (KStr "description") data = Some (PStr DEFAULT_DESCRIPTION)
    /\ dict_get (KStr "version_mappings") data = Some (PDict [])
    /\ dict_get (KStr "sync_history") data = Some (PList [])
    /\ dict_get (KStr "last_sync") data = Some (PDict EMPTY_LAST_SYNC).
Proof.
  apply (ensure_schema_normalizes_each_field [] [(KStr "sync_history", PInt 3)]).
  left. reflexivity.
Defined.

Lemma norm_last_sync_idem ls :
  norm_last_sync (PDict (norm_last_sync ls)) = norm_last_sync ls.
Proof. destruct ls; reflexivity. Qed.

Lemma norm_history_idem v : norm_history (PList (norm_history v)) = norm_history v.
Proof. cbn [norm_history]. apply lastn_all, norm_history_length. Qed.

Lemma normalized_description d vm :
  dict_get_default "description" (PStr DEFAULT_DESCRIPTION) (normalized d vm)
  = dict_get_default "description" (PStr DEFAULT_DESCRIPTION) d.
Proof. reflexivity. Qed.

Lemma normalized_mappings d vm :
  dict_get_default "version_mappings" (PDict []) (normalized d vm) = PDict vm.
Proof. reflexivity. Qed.

Lemma normalized_history d vm :
  dict_get_default "sync_history" (PList []) (normalized d vm)
  = PList (norm_history (dict_get_default "sync_history" (PList []) d)).
Proof. reflexivity. Qed.

Lemma normalized_last_sync d vm :
  dict_get_default "last_sync" (PDict []) (normalized d vm)
  = PDict (norm_last_sync (dict_get_default "last_sync" (PDict []) d)).
Proof. reflexivity. Qed.

(** X4: normalization is idempotent: a record that [_ensure_schema]
    returned is returned unchanged when it is normalized again, whatever
    the template holds. *)
Theorem ensure_schema_idempotent (shared shared' : pydict) (raw : pyval) (data : pydict) :
  _ensure_schema shared raw = Ok data ->
  _ensure_schema shared' (PDict data) = Ok data.
Proof.
  intros H. apply ensure_schema_ok in H as (d & vm & -> & _ & ->).
  rewrite ensure_schema_dict, normalized_mappings. cbn [py_dict rbind].
  f_equal. unfold normalized at 1.
  rewrite normalized_description, normalized_history, normalized_last_sync.
  rewrite norm_last_sync_idem, norm_history_idem. reflexivity.
Qed.

Lemma ensure_schema_idempotent_witness :
  _ensure_schema [(KStr "x", PStr "y")]
    (PDict (record_of (PStr DEFAULT_DESCRIPTION) (PDict []) (PList [])
              (PDict EMPTY_LAST_SYNC)))
  = Ok (record_of (PStr DEFAULT_DESCRIPTION) (PDict []) (PList [])
          (PDict EMPTY_LAST_SYNC)).
Proof.
  apply (ensure_schema_idempotent [] _ (PDict [])). reflexivity.
Defined.

(** ** What a record call writes *)

(** X5: a valid call whose arguments UTF-8 can encode, in a state whose
    loaded record is a JSON document with a history of objects and can
    be encoded, succeeds, and the next load returns the same description,
    the mapping with the upstream version set to the NAD version (in
    place when it was there, at the end otherwise), the history without
    the entries for that version plus the new event, cut to the last
    [MAX_HISTORY], and the new event as last sync. *)
Theorem record_then_load (c : call) (w : world) :
  valid_call c = true ->
  encodable_call c = true ->
  history_of_objects w = true ->
  encodable_store w = true ->
  is_json (PDict (loaded w)) = true ->
  exists w',
    record c w = (Ok tt, w')
    /\ loaded w'
       = record_of (description_of (loaded w))
           (PDict (dict_set (KStr (call_upstream c)) (PStr (call_nad c))
                     (mappings_of (loaded w))))
           (PList (history_after c (history_of (loaded w))))
           (event_of c).
Proof.
  intros Hv Hc Hobj Henc Hjson.
  destruct (record_loaded c w Hv Hc Hobj Henc Hjson) as (w' & Hrec & _ & Hld).
  exists w'. split; [exact Hrec | exact Hld].
Qed.

Lemma record_then_load_witness :
  exists w',
    record (sample_call 1) (snd (record (sample_call 0) initial)) = (Ok tt, w')
    /\ loaded w'
       = record_of (PStr DEFAULT_DESCRIPTION)
           (PDict [(KStr "A", PStr "nad"); (KStr "B", PStr "nad")])
           (PList [event_of (sample_call 0); event_of (sample_call 1)])
           (event_of (sample_call 1)).
Proof.
  apply (record_then_load (sample_call 1) (snd (record (sample_call 0) initial)));
    reflexivity.
Defined.

(** X6: a successful record call changes the mapping of its own upstream
    version only.  Under the hypotheses of X5, in the record the next
    load returns that version maps to the new NAD version, every other
    version maps to what the loaded record had for it (or stays
    unmapped), and the description is carried over. *)
Theorem record_keeps_other_mappings (c : call) (w : world) :
  valid_call c = true ->
  encodable_call c = true ->
  history_of_objects w = true ->
  encodable_store w = true ->
  is_json (PDict (loaded w)) = true ->
  exists w',
    record c w = (Ok tt, w')
    /\ dict_get (KStr (call_upstream c)) (mappings_of (loaded w'))
       = Some (PStr (call_nad c))
    /\ (forall u, u <> call_upstream c ->
        dict_get (KStr u) (mappings_of (loaded w'))
        = dict_get (KStr u) (mappings_of (loaded w)))
    /\ description_of (loaded w') = description_of (loaded w).
Proof.
  intros Hv Hc Hobj Henc Hjson.
  destruct (record_loaded c w Hv Hc Hobj Henc Hjson) as (w' & Hrec & _ & Hld).
  exists w'. split; [exact Hrec |]. rewrite Hld.
  unfold mappings_of, description_of, record_after, dict_get_default.
  cbn [record_of dict_get key_eqb]. simpl (String.eqb _ _). cbv iota.
  split; [apply dict_get_set_same |]. split; [| reflexivity].
  intros u Hu. apply dict_get_set_other. simpl.
  apply String.eqb_neq. congruence.
Qed.

Lemma record_keeps_other_mappings_witness :
  exists w',
    record (sample_call 1) (snd (record (sample_call 0) initial)) = (Ok tt, w')
    /\ dict_get (KStr "B") (mappings_of (loaded w')) = Some (PStr "nad")
    /\ (forall u, u <> "B" ->
        dict_get (KStr u) (mappings_of (loaded w'))
        = dict_get (KStr u)
            (mappings_of (loaded (snd (record (sample_call 0) initial)))))
    /\ description_of (loaded w')
       = description_of (loaded (snd (record (sample_call 0) initial))).
Proof.
  apply (record_keeps_other_mappings (sample_call 1)
           (snd (record (sample_call 0) initial))); reflexivity.
Defined.

(** X7: when the loaded history holds an entry that is not an object, a
    call with non-empty versions raises [AttributeError] before anything
    is written: the backing file and the template are as they were, and
    the command line ends with exit status 1. *)
Theorem record_fails_without_writing (e : env) (u n : string) (w : world) :
  u <> "" -> n <> "" ->
  history_of_objects w = false ->
  (forall t,
     exists events,
       save_version_mapping (now e) u n t w = (Raise AttributeError, log w events)
       /\ existsb is_write events = false)
  /\ (plain u = true -> plain n = true ->
      exists events,
        script e ["save-mapping"; u; n] w = Some (1%Z, log w events)
        /\ existsb is_write events = false).
Proof.
  intros Hu Hn Hobj.
  assert (Hsave : forall t,
             exists events,
               save_version_mapping (now e) u n t w = (Raise AttributeError, log w events)
               /\ existsb is_write events = false).
  { intros t.
    assert (Hv : valid_call (Call (now e) u n t) = true).
    { unfold valid_call. simpl. apply String.eqb_neq in Hu, Hn. now rewrite Hu, Hn. }
    destruct (record_outcome _ w Hv) as (al & evs & Hevs & Hal & Hrec).
    rewrite history_of_objects_loaded in Hobj. rewrite Hobj in Hrec.
    cbv zeta in Hrec. unfold record in Hrec. simpl in Hrec.
    destruct al.
    - destruct (Hal eq_refl) as [Hnil _]. rewrite Hnil in Hobj. discriminate.
    - exists evs. split; [| exact Hevs]. rewrite Hrec. unfold log.
      destruct w; reflexivity. }
  split; [exact Hsave |]. intros Hpu Hpn.
  destruct (Hsave "manual") as (evs & Hrec & Hevs).
  exists (evs ++ [Stderr (MsgSaveFailed AttributeError)]). split.
  - unfold script, main, parse_args. simpl. rewrite Hpu, Hpn. simpl.
    unfold bind at 1. unfold ret at 1. simpl.
    unfold try_except, bind. rewrite Hrec. simpl.
    unfold log. simpl. now rewrite <- app_assoc.
  - rewrite existsb_app, Hevs. reflexivity.
Qed.

Lemma record_fails_without_writing_witness :
  let w := World (Some scalar_history_file) [] [] in
  (forall t,
     exists events,
       save_version_mapping (now sample_env) "33.0.0" "33.0.0-no-aja" t w
       = (Raise AttributeError, log w events)
       /\ existsb is_write events = false)
  /\ (exists events,
        script sample_env ["save-mapping"; "33.0.0"; "33.0.0-no-aja"] w
        = Some (1%Z, log w events)
        /\ existsb is_write events = false).
Proof.
  intros w.
  destruct (record_fails_without_writing sample_env "33.0.0" "33.0.0-no-aja" w)
    as [H1 H2]; [discriminate | discriminate | reflexivity |].
  split; [exact H1 | apply H2; reflexivity].
Defined.

(** X8: the default record shares its mapping dictionary with
    [SCHEMA_TEMPLATE].  A valid call on a missing or undecodable file
    therefore writes its mapping into the template as well, whether the
    write then succeeds or fails: for the rest of the process every load
    that falls back to the default record returns that mapping instead
    of an empty one.  The write succeeds when the call and the template
    can be encoded, and the file then holds the mapping of the template;
    it fails when the call cannot be encoded, and the file is left
    truncated. *)
Theorem record_on_default_updates_template (c : call) (w : world) :
  valid_call c = true ->
  file w = None \/ file w = Some (Foreign None) ->
  let w' := snd (record c w) in
  shared_mappings w'
  = dict_set (KStr (call_upstream c)) (PStr (call_nad c)) (shared_mappings w)
  /\ (forall w2, file w2 = None -> shared_mappings w2 = shared_mappings w' ->
      dict_get (KStr (call_upstream c)) (mappings_of (loaded w2))
      = Some (PStr (call_nad c)))
  /\ (encodable_call c = true ->
      encodable_value (PDict (shared_mappings w)) = true ->
      fst (record c w) = Ok tt
      /\ stored "version_mappings" w' = Some (PDict (shared_mappings w')))
  /\ (encodable_call c = false ->
      fst (record c w) = Raise UnicodeEncodeError
      /\ file w' = Some (Foreign None)).
Proof.
  intros Hv Hf. destruct (valid_call_versions c Hv) as [Hu Hn].
  assert (E : exists events,
             load_version_mapping w
             = (Ok (record_of (PStr DEFAULT_DESCRIPTION) (PDict (shared_mappings w))
                      (PList []) (PDict EMPTY_LAST_SYNC), true), log w events)).
  { rewrite load_cases. destruct Hf as [-> | ->]; eexists; reflexivity. }
  destruct E as [evs E]. unfold record.
  rewrite (save_after_load _ _ _ _ _ _ _ _ _ _ _ Hu Hn E).
  cbv zeta. cbn [keep_other_versions]. fold (event_of c).
  match goal with
  | |- context [encodable_value ?d] => destruct (encodable_value d) eqn:Hdata
  end; cbn [fst snd shared_mappings file].
  - split; [reflexivity |]. split.
    + intros w2 Hf2 Hs2. unfold loaded. rewrite load_cases, Hf2, Hs2. simpl.
      apply dict_get_set_same.
    + split; [intros _ _; split; reflexivity |].
      intros Hc. rewrite encodable_record, encodable_event, Hc, andb_false_r in Hdata.
      discriminate.
  - split; [reflexivity |]. split.
    + intros w2 Hf2 Hs2. unfold loaded. rewrite load_cases, Hf2, Hs2. simpl.
      apply dict_get_set_same.
    + split; [| intros _; split; reflexivity].
      intros Hc Hs. exfalso.
      assert (Hok := encodable_written c _ _ [] [] _ (encodable_default _ Hs) Hc
                       (fun x Hx => Hx)).
      discriminate (eq_trans (eq_sym Hdata) Hok).
Qed.

Lemma record_on_default_updates_template_witness :
  let w' := snd (record undecodable_call initial) in
  shared_mappings w' = [(KStr (call_upstream undecodable_call), PStr "nad")]
  /\ (forall w2, file w2 = None -> shared_mappings w2 = shared_mappings w' ->
      dict_get (KStr (call_upstream undecodable_call)) (mappings_of (loaded w2))
      = Some (PStr "nad"))
  /\ (encodable_call undecodable_call = true ->
      encodable_value (PDict (shared_mappings initial)) = true ->
      fst (record undecodable_call initial) = Ok tt
      /\ stored "version_mappings" w' = Some (PDict (shared_mappings w')))
  /\ (encodable_call undecodable_call = false ->
      fst (record undecodable_call initial) = Raise UnicodeEncodeError
      /\ file w' = Some (Foreign None)).
Proof.
  apply (record_on_default_updates_template undecodable_call initial);
    [reflexivity | now left].
Defined.

(** ** save-mapping on the command line *)

(** X9: [save-mapping U N] with plain, non-empty versions that UTF-8
    can encode, in a state with a history of objects whose record can be
    encoded, exits with status 0 and records the event with the trigger
    type ["manual"]; with [--trigger-type T] it records [T], or ["auto"]
    when [T] is empty.  The event is the last sync and the last history
    entry of the written record, and the last sync the next load
    returns. *)
Theorem save_mapping_command_records (e : env) (u n t : string) (w : world) :
  u <> "" -> n <> "" ->
  plain u = true -> plain n = true -> plain t = true ->
  encodable_call (Call (now e) u n t) = true ->
  history_of_objects w = true ->
  encodable_store w = true ->
  (exists w' h,
     script e ["save-mapping"; u; n] w = Some (0%Z, w')
     /\ stored "last_sync" w' = Some (PDict (make_entry (now e) u n "manual"))
     /\ last_sync_of (loaded w') = PDict (make_entry (now e) u n "manual")
     /\ stored_history w' = Some h
     /\ last h = Some (PDict (make_entry (now e) u n "manual")))
  /\ (exists w' h,
        script e ["save-mapping"; u; n; "--trigger-type"; t] w = Some (0%Z, w')
        /\ stored "last_sync" w' = Some (PDict (make_entry (now e) u n t))
        /\ last_sync_of (loaded w') = PDict (make_entry (now e) u n t)
        /\ stored_history w' = Some h
        /\ last h = Some (PDict (make_entry (now e) u n t))
        /\ dict_get (KStr "trigger_type") (make_entry (now e) u n t)
           = Some (PStr (if String.eqb t "" then "auto" else t))).
Proof.
  intros Hu Hn Hpu Hpn Hpt Hc Hobj Henc.
  destruct (encodable_call_fields _ Hc) as (Hcnow & Hcu & Hcn & _).
  cbn [call_now call_upstream call_nad] in Hcnow, Hcu, Hcn.
  assert (Hrun : forall t',
             encodable t' = true ->
             exists w' h,
               save_version_mapping (now e) u n t' w = (Ok tt, w')
               /\ stored "last_sync" w' = Some (PDict (make_entry (now e) u n t'))
               /\ last_sync_of (loaded w') = PDict (make_entry (now e) u n t')
               /\ stored_history w' = Some h
               /\ last h = Some (PDict (make_entry (now e) u n t'))).
  { intros t' Ht'.
    assert (Hv : valid_call (Call (now e) u n t') = true).
    { unfold valid_call. simpl. apply String.eqb_neq in Hu, Hn. now rewrite Hu, Hn. }
    assert (Hc' : encodable_call (Call (now e) u n t') = true).
    { unfold encodable_call. cbn [call_now call_upstream call_nad call_trigger].
      now rewrite Hcnow, Hcu, Hcn, Ht'. }
    destruct (record_succeeds _ w Hv Hc' Hobj Henc) as (w' & Hrec & Hf & Hls).
    exists w', (history_after (Call (now e) u n t') (history_of (loaded w))).
    split; [exact Hrec |].
    split; [unfold stored; rewrite Hf; reflexivity |].
    split; [exact Hls |].
    split; [unfold stored_history, stored; rewrite Hf; reflexivity |].
    unfold history_after. apply lastn_last. unfold MAX_HISTORY. lia. }
  split.
  - destruct (Hrun "manual" eq_refl) as (w' & h & Hrec & Hrest).
    exists w', h. split; [| exact Hrest].
    unfold script, main, parse_args. simpl. rewrite Hpu, Hpn. simpl.
    unfold bind at 1. unfold ret at 1. simpl.
    unfold try_except, bind. rewrite Hrec. reflexivity.
  - destruct (encodable_call_fields _ Hc) as (_ & _ & _ & Hct).
    destruct (Hrun t Hct) as (w' & h & Hrec & Hls & Hld & Hh & Hlast).
    exists w', h. split; [| auto 6].
    unfold script, main, parse_args. simpl. rewrite Hpu, Hpn, Hpt. simpl.
    unfold bind at 1. unfold ret at 1. simpl.
    unfold try_except, bind. rewrite Hrec. reflexivity.
Qed.

Lemma save_mapping_command_records_witness :
  (exists w' h,
     script sample_env ["save-mapping"; "33.0.0"; "33.0.0-no-aja"] initial = Some (0%Z, w')
     /\ stored "last_sync" w'
        = Some (PDict (make_entry (now sample_env) "33.0.0" "33.0.0-no-aja" "manual"))
     /\ last_sync_of (loaded w')
        = PDict (make_entry (now sample_env) "33.0.0" "33.0.0-no-aja" "manual")
     /\ stored_history w' = Some h
     /\ last h
        = Some (PDict (make_entry (now sample_env) "33.0.0" "33.0.0-no-aja" "manual")))
  /\ (exists w' h,
        script sample_env ["save-mapping"; "33.0.0"; "33.0.0-no-aja"; "--trigger-type"; ""]
          initial = Some (0%Z, w')
        /\ stored "last_sync" w'
           = Some (PDict (make_entry (now sample_env) "33.0.0" "33.0.0-no-aja" ""))
        /\ last_sync_of (loaded w')
           = PDict (make_entry (now sample_env) "33.0.0" "33.0.0-no-aja" "")
        /\ stored_history w' = Some h
        /\ last h = Some (PDict (make_entry (now sample_env) "33.0.0" "33.0.0-no-aja" ""))
        /\ dict_get (KStr "trigger_type")
             (make_entry (now sample_env) "33.0.0" "33.0.0-no-aja" "")
           = Some (PStr "auto")).
Proof.
  apply (save_mapping_command_records sample_env "33.0.0" "33.0.0-no-aja" "" initial);
    try discriminate; reflexivity.
Defined.

(** ** Fetching *)

(** Runs the monad operations of a goal and gathers the trace. *)
Ltac run_m :=
  unfold print, eprint; unfold bind, try_except, lift, emit, ret, raise, log;
  cbv beta iota;
  cbn [py_get_none py_get py_lstrip_v py_truthy negb fst snd file shared_mappings trace];
  rewrite <- ?app_assoc; cbn [app].

(** What the fetcher returns and prints, whatever the world. *)
Lemma get_upstream_outcome c w :
  exists r events,
    get_upstream_version c w = (Ok r, log w (NetGet :: events))
    /\ existsb is_file_access events = false
    /\ match r with
       | Some s =>
           events = [Stdout (MsgLatest s)]
           /\ exists release tag,
                c = Completed (Some (PDict release))
                /\ dict_get (KStr "tag_name") release = Some (PStr tag)
                /\ s = lstrip_v tag /\ s <> ""
       | None => True
       end.
Proof.
  unfold get_upstream_version.
  destruct c as [stderr | | [release |]]; try (run_m; do 2 eexists; split; [reflexivity | auto]).
  destruct release as [| b | z | s | l | d];
    try (run_m; do 2 eexists; split; [reflexivity | auto]).
  run_m. unfold dict_get_default.
  destruct (dict_get (KStr "tag_name") d) as [tag |] eqn:Htag;
    [| run_m; do 2 eexists; split; [reflexivity | auto]].
  destruct tag as [| b | z | s | l | d'].
  - run_m; do 2 eexists; split; [reflexivity | auto].
  - destruct b; run_m; do 2 eexists; (split; [reflexivity | auto]).
  - cbn [py_truthy]. destruct (negb (Z.eqb z 0));
      run_m; do 2 eexists; (split; [reflexivity | auto]).
  - cbn [py_truthy].
    assert (Hv : py_lstrip_v (if negb (String.eqb s "") then PStr s else PStr "")
                 = Ok (lstrip_v s)).
    { destruct (String.eqb_spec s "") as [-> | _]; reflexivity. }
    rewrite Hv.
    destruct (String.eqb_spec (lstrip_v s) "") as [He | Hne]; run_m.
    + do 2 eexists. split; [reflexivity | auto].
    + do 2 eexists. split; [reflexivity |]. split; [reflexivity |].
      split; [reflexivity |]. exists d, s. auto.
  - destruct l; run_m; do 2 eexists; (split; [reflexivity | auto]).
  - destruct d'; run_m; do 2 eexists; (split; [reflexivity | auto]).
Qed.

(** X10: the fetcher never raises to its caller and never touches the
    backing file: for every outcome of the curl call and every response
    body it returns a version or the absent result, and its only effects
    are the request and printed lines. *)
Theorem get_upstream_never_raises (c : curl_outcome) (w : world) :
  exists r events,
    get_upstream_version c w = (Ok r, log w events)
    /\ existsb is_file_access events = false.
Proof.
  destruct (get_upstream_outcome c w) as (r & evs & H & Hevs & _).
  exists r, (NetGet :: evs). split; [exact H | exact Hevs].
Qed.

(** X11: a version that the fetcher returns is never empty and never
    starts with ["v"]; it is what is left of the string under [tag_name]
    of a response that is a JSON object, and it has been printed. *)
Theorem fetched_version_is_stripped_tag (c : curl_outcome) (w w' : world) (s : string) :
  get_upstream_version c w = (Ok (Some s), w') ->
  s <> "" /\ starts_with_v s = false
  /\ w' = log w [NetGet; Stdout (MsgLatest s)]
  /\ exists release tag,
       c = Completed (Some (PDict release))
       /\ dict_get (KStr "tag_name") release = Some (PStr tag)
       /\ s = lstrip_v tag.
Proof.
  intros H. destruct (get_upstream_outcome c w) as (r & evs & E & _ & Hr).
  rewrite E in H. injection H as -> <-.
  destruct Hr as (-> & release & tag & Hc & Htag & Hs & Hne).
  split; [exact Hne |]. split; [| split; [reflexivity | eauto]].
  subst s. apply lstrip_v_run.
Qed.

Lemma fetched_version_is_stripped_tag_witness :
  "33.0.0" <> "" /\ starts_with_v "33.0.0" = false
  /\ log initial [NetGet; Stdout (MsgLatest "33.0.0")]
     = log initial [NetGet; Stdout (MsgLatest "33.0.0")]
  /\ exists release tag,
       release_with_tag "v33.0.0" = Completed (Some (PDict release))
       /\ dict_get (KStr "tag_name") release = Some (PStr tag)
       /\ "33.0.0" = lstrip_v tag.
Proof.
  apply (fetched_version_is_stripped_tag (release_with_tag "v33.0.0") initial).
  reflexivity.
Defined.

(** X12: [get-upstream] exits with status 0 exactly when the fetcher
    returns a version, which it then prints a second time, and with
    status 1 otherwise; it never touches the backing file. *)
Theorem get_upstream_command_status (e : env) (w : world) :
  exists status events,
    script e ["get-upstream"] w = Some (status, log w events)
    /\ existsb is_file_access events = false
    /\ match fst (get_upstream_version (curl e) w) with
       | Ok (Some v) => status = 0%Z /\ last events = Some (Stdout (MsgUpstream v))
       | _ => status = 1%Z
       end.
Proof.
  destruct (get_upstream_outcome (curl e) w) as (r & evs & E & Hevs & _).
  unfold script, main, parse_args. simpl. unfold bind at 1, ret at 1. simpl.
  unfold bind at 1. rewrite E. simpl.
  destruct r as [v |].
  - run_m. do 2 eexists. split; [reflexivity |]. split.
    + simpl. rewrite existsb_app, Hevs. reflexivity.
    + split; [reflexivity |]. exact (last_snoc (Stdout (MsgUpstream v)) (NetGet :: evs)).
  - unfold ret. do 2 eexists. split; [reflexivity |]. split; [exact Hevs | reflexivity].
Qed.

(** ** Listing *)

(** X13: [list_mappings] makes no mutation, whether it returns or
    raises: after the function, and after the [list] command with any
    exit status, the backing file and the template are what they were. *)
Theorem list_never_mutates (e : env) (w : world) :
  (file (snd (list_mappings w)) = file w
   /\ shared_mappings (snd (list_mappings w)) = shared_mappings w)
  /\ exists status w',
       script e ["list"] w = Some (status, w')
       /\ file w' = file w
       /\ shared_mappings w' = shared_mappings w.
Proof.
  destruct (logs_only_list_mappings w) as [evs Hl].
  split; [rewrite Hl; split; reflexivity |].
  unfold script, main, parse_args. simpl. unfold bind at 1, ret at 1. simpl.
  unfold bind. destruct (list_mappings w) as [[[] | exc] w1]; simpl in Hl; subst w1.
  - do 2 eexists. split; [reflexivity |]. split; reflexivity.
  - destruct exc; do 2 eexists; (split; [reflexivity |]); split; reflexivity.
Qed.

Lemma print_history_trace entries :
  forallb complete_entry entries = true ->
  forall idx w, print_history idx entries w = (Ok tt, log w (history_lines idx entries)).
Proof.
  induction entries as [| entry rest IH]; intros H idx w.
  - simpl. now rewrite log_nil.
  - cbn [forallb] in H. apply andb_prop in H as [He Hrest].
    destruct entry as [| | | | | d]; try discriminate.
    cbn [complete_entry forallb] in He.
    repeat (apply andb_prop in He as [? He]).
    cbn [print_history py_getitem history_lines entry_field]. unfold dict_get_default.
    repeat match goal with
           | Hk : match dict_get ?k d with _ => _ end = true |- _ =>
               destruct (dict_get k d); [clear Hk | discriminate Hk]
           end.
    unfold bind at 1, lift at 1. unfold bind at 1, lift at 1.
    unfold bind at 1, lift at 1. unfold bind at 1, lift at 1.
    unfold bind at 1, print at 1, emit at 1.
    rewrite (IH Hrest). unfold log. simpl. rewrite <- app_assoc. reflexivity.
Qed.

Lemma print_mappings_trace items :
  forall w, print_mappings items w = (Ok tt, log w (map mapping_line items)).
Proof.
  induction items as [| [upstream nad] rest IH]; intros w; simpl.
  - now rewrite log_nil.
  - unfold bind, print, emit. rewrite IH.
    unfold log. simpl. rewrite <- app_assoc. reflexivity.
Qed.

Lemma ltb_asym s t : String.ltb s t = true -> String.ltb t s = false.
Proof.
  unfold String.ltb. rewrite (String.compare_antisym t s).
  destruct (String.compare s t); simpl; congruence.
Qed.

Lemma insert_item_sorted x l :
  is_kstr (fst x) = true ->
  forallb is_kstr (dict_keys l) = true ->
  Sorted item_le l ->
  exists r,
    insert_item x l = Ok r
    /\ Permutation r (x :: l)
    /\ Sorted item_le r
    /\ forall y, HdRel item_le y l -> item_le y x -> HdRel item_le y r.
Proof.
  intros Hx. induction l as [| y l IH]; intros Hl Hs.
  - exists [x]. split; [reflexivity |]. split; [reflexivity |].
    split; [repeat constructor |]. intros y _ Hyx. now constructor.
  - simpl in Hl. apply andb_prop in Hl as [Hy Hl].
    destruct x as [[| | | s] vx]; try discriminate.
    destruct y as [[| | | t] vy]; try discriminate.
    cbn [insert_item key_ltb fst rbind].
    destruct (String.ltb s t) eqn:Hlt.
    + eexists. split; [reflexivity |]. split; [reflexivity |]. split.
      * constructor; [exact Hs |]. constructor. unfold item_le. simpl.
        now apply ltb_asym.
      * intros z _ Hzx. now constructor.
    + inversion Hs as [| ? ? Hs' Hhd]; subst.
      destruct (IH Hl Hs') as (r & -> & Hperm & Hsr & Hhdr).
      cbn [rbind]. eexists. split; [reflexivity |]. split.
      * rewrite Hperm. apply perm_swap.
      * split.
        -- constructor; [exact Hsr |]. apply Hhdr; [exact Hhd |].
           unfold item_le. simpl. exact Hlt.
        -- intros z Hz _. inversion Hz; subst. now constructor.
Qed.

(** X14: for a mapping whose keys are all [str], [sorted(mappings.items())]
    does not raise; it returns the same items, each once, in ascending
    order of their keys. *)
Theorem sorted_items_of_str_keys (d : pydict) :
  forallb is_kstr (dict_keys d) = true ->
  exists r,
    sorted_items d = Ok r
    /\ Permutation r d
    /\ Sorted item_le r.
Proof.
  induction d as [| x d IH]; intros H.
  - exists []. repeat split; constructor.
  - simpl in H. apply andb_prop in H as [Hx Hd].
    destruct (IH Hd) as (s & Hs & Hperm & Hsorted).
    destruct (insert_item_sorted x s Hx) as (r & Hr & Hp & Hsr & _).
    { rewrite forallb_forall in *. intros k Hk. apply Hd.
      unfold dict_keys in *. apply in_map_iff in Hk as (y & <- & Hy).
      apply in_map. apply (Permutation_in _ Hperm Hy). }
    { exact Hsorted. }
    exists r. simpl. rewrite Hs. simpl. split; [exact Hr |].
    split; [| exact Hsr]. rewrite Hp. now constructor.
Qed.

Lemma sorted_items_of_str_keys_witness :
  exists r,
    sorted_items [(KStr "b", PInt 1); (KStr "a", PInt 2)] = Ok r
    /\ Permutation r [(KStr "b", PInt 1); (KStr "a", PInt 2)]
    /\ Sorted item_le r.
Proof.
  apply (sorted_items_of_str_keys [(KStr "b", PInt 1); (KStr "a", PInt 2)]).
  reflexivity.
Defined.

(** X15: on data with complete history entries and [str] mapping keys,
    [list] exits with status 0 after printing exactly its report: the
    notice alone when history and mapping are both empty; otherwise the
    history entries most recent first, numbered from 1, under their
    header, then the mapping items in sorted order under theirs, each
    flagged when the NAD version is the upstream version followed by
    ["-no-aja"]. *)
Theorem list_prints_report (e : env) (w : world) :
  listable w = true ->
  exists aliased events items,
    load_version_mapping w = (Ok (loaded w, aliased), log w events)
    /\ sorted_items (mappings_of (loaded w)) = Ok items
    /\ script e ["list"] w
       = Some (0%Z, log w (events ++ report (history_of (loaded w)) items)).
Proof.
  intros H. destruct (load_shape w) as (desc & vm & h & ls & al & evs & E & _).
  assert (Hl : loaded w = record_of desc (PDict vm) (PList h) (PDict ls))
    by (unfold loaded; rewrite E; reflexivity).
  unfold listable in H. rewrite E in H. simpl in H. apply andb_prop in H as [Hh Hvm].
  destruct (sorted_items_strs vm Hvm) as (items & Hsort & _).
  rewrite Hl. exists al, evs, items. split; [exact E |].
  change (mappings_of (record_of desc (PDict vm) (PList h) (PDict ls))) with vm.
  change (history_of (record_of desc (PDict vm) (PList h) (PDict ls))) with h.
  split; [exact Hsort |].
  assert (Hlist : list_mappings w = (Ok tt, log w (evs ++ report h items))).
  { unfold list_mappings, bind at 1. rewrite E. cbv zeta. cbn [fst].
    change (dict_get_default "sync_history" (PList [])
              (record_of desc (PDict vm) (PList h) (PDict ls))) with (PList h).
    change (dict_get_default "version_mappings" (PDict [])
              (record_of desc (PDict vm) (PList h) (PDict ls))) with (PDict vm).
    assert (Hrev : forallb complete_entry (rev h) = true).
    { rewrite forallb_forall in *. intros y Hy. apply Hh. now apply in_rev. }
    destruct h as [| x h]; destruct vm as [| kv vm].
    - simpl in Hsort. injection Hsort as <-.
      simpl. unfold print, emit, log. simpl. now rewrite app_assoc.
    - assert (Hitems : exists i items', items = i :: items').
      { destruct items as [| i items']; [| eauto].
        simpl in Hsort. destruct (sorted_items vm) as [s |]; [| discriminate].
        simpl in Hsort. destruct s; simpl in Hsort; [discriminate |].
        destruct (key_ltb _ _) as [[] |]; simpl in Hsort; try discriminate.
        destruct (insert_item _ _); discriminate. }
      destruct Hitems as (i & items' & ->).
      cbn [py_truthy negb andb]. unfold bind at 1, ret at 1.
      unfold bind at 1, print at 1, emit at 1. unfold bind at 1, lift at 1.
      rewrite Hsort, print_mappings_trace.
      unfold log, report. simpl. rewrite <- !app_assoc. reflexivity.
    - simpl in Hsort. injection Hsort as <-.
      cbn [py_truthy negb andb]. unfold bind at 1. unfold bind at 1, print at 1, emit at 1.
      rewrite (print_history_trace _ Hrev). unfold ret, log, report. simpl.
      rewrite <- !app_assoc. simpl. now rewrite app_nil_r.
    - assert (Hitems : exists i items', items = i :: items').
      { destruct items as [| i items']; [| eauto].
        simpl in Hsort. destruct (sorted_items vm) as [s |]; [| discriminate].
        simpl in Hsort. destruct s; simpl in Hsort; [discriminate |].
        destruct (key_ltb _ _) as [[] |]; simpl in Hsort; try discriminate.
        destruct (insert_item _ _); discriminate. }
      destruct Hitems as (i & items' & ->).
      cbn [py_truthy negb andb]. unfold bind at 1. unfold bind at 1, print at 1, emit at 1.
      rewrite (print_history_trace _ Hrev).
      unfold bind at 1, print at 1, emit at 1. unfold bind at 1, lift at 1.
      rewrite Hsort, print_mappings_trace.
      unfold log, report. simpl. rewrite <- !app_assoc. reflexivity. }
  unfold script, main, parse_args. simpl. unfold bind at 1, ret at 1. simpl.
  unfold bind. rewrite Hlist. reflexivity.
Qed.

Lemma list_prints_report_witness :
  let w := snd (record (sample_call 1) (snd (record (sample_call 0) initial))) in
  exists aliased events items,
    load_version_mapping w = (Ok (loaded w, aliased), log w events)
    /\ sorted_items (mappings_of (loaded w)) = Ok items
    /\ script sample_env ["list"] w
       = Some (0%Z, log w (events ++ report (history_of (loaded w)) items)).
Proof.
  intros w. apply (list_prints_report sample_env w). reflexivity.
Defined.

(** ** The store in reachable states *)

Lemma filter_events u calls :
  List.filter (fun e => negb (entry_for u e)) (map event_of calls)
  = map event_of
      (List.filter (fun c => negb (String.eqb (call_upstream c) u)) calls).
Proof.
  induction calls as [| c calls IH]; [reflexivity |].
  cbn [map List.filter]. rewrite entry_for_event, IH.
  destruct (String.eqb (call_upstream c) u); reflexivity.
Qed.

Lemma history_after_events c calls :
  history_after c (map event_of calls)
  = map event_of
      (lastn MAX_HISTORY
         (List.filter (fun c' => negb (String.eqb (call_upstream c') (call_upstream c)))
            calls ++ [c])).
Proof.
  unfold history_after. rewrite filter_events.
  change [event_of c] with (map event_of [c]).
  rewrite <- map_app. apply lastn_map.
Qed.

Lemma NoDup_upstream_filter (q : call -> bool) calls :
  NoDup (map call_upstream calls) ->
  NoDup (map call_upstream (List.filter q calls)).
Proof.
  induction calls as [| c calls IH]; simpl; intros H; [constructor |].
  apply NoDup_cons in H as [Hc H].
  destruct (q c); simpl; [| auto].
  apply NoDup_cons. split; [| auto].
  intros Hin. apply Hc. apply list_elem_of_In in Hin. apply list_elem_of_In.
  apply in_map_iff in Hin as (c' & <- & Hc').
  apply filter_In in Hc' as [Hc' _]. now apply in_map.
Qed.

Lemma NoDup_upstream_lastn n calls :
  NoDup (map call_upstream calls) ->
  NoDup (map call_upstream (lastn n calls)).
Proof.
  intros H. destruct (lastn_suffix n calls) as [front E].
  rewrite E, map_app in H. now apply NoDup_app in H as (_ & _ & H).
Qed.

Lemma NoDup_upstream_after c calls :
  NoDup (map call_upstream calls) ->
  NoDup (map call_upstream
           (lastn MAX_HISTORY
              (List.filter (fun c' => negb (String.eqb (call_upstream c') (call_upstream c)))
                 calls ++ [c]))).
Proof.
  intros H. apply NoDup_upstream_lastn. rewrite map_app. apply NoDup_app.
  split; [now apply NoDup_upstream_filter |]. split; [| repeat constructor].
  - intros u Hu Hin. apply list_elem_of_In in Hu, Hin.
    apply in_map_iff in Hu as (c' & <- & Hc').
    apply filter_In in Hc' as [_ Hne]. apply negb_true_iff, String.eqb_neq in Hne.
    simpl in Hin. destruct Hin as [Heq | []]. congruence.
  - intros Hin. apply list_elem_of_In in Hin. exact Hin.
Qed.

Lemma mapped_after c vm calls :
  Forall (fun c' => dict_get (KStr (call_upstream c')) vm = Some (PStr (call_nad c')))
    calls ->
  Forall (fun c' => dict_get (KStr (call_upstream c'))
                      (dict_set (KStr (call_upstream c)) (PStr (call_nad c)) vm)
                    = Some (PStr (call_nad c')))
    (lastn MAX_HISTORY
       (List.filter (fun c' => negb (String.eqb (call_upstream c') (call_upstream c)))
          calls ++ [c])).
Proof.
  intros H. rewrite Forall_forall in *. intros c' Hin.
  apply list_elem_of_In in Hin.
  destruct (lastn_suffix MAX_HISTORY
              (List.filter (fun c' => negb (String.eqb (call_upstream c') (call_upstream c)))
                 calls ++ [c])) as [front E].
  assert (Hin' : In c' (List.filter
                          (fun c' => negb (String.eqb (call_upstream c') (call_upstream c)))
                          calls ++ [c])).
  { rewrite E. apply in_or_app. now right. }
  apply in_app_or in Hin' as [Hf | [<- | []]].
  - apply filter_In in Hf as [Hc' Hne].
    apply negb_true_iff, String.eqb_neq in Hne.
    rewrite dict_get_set_other.
    + apply H. now apply list_elem_of_In.
    + simpl. apply String.eqb_neq. congruence.
  - apply dict_get_set_same.
Qed.

Lemma store_invariant_file w w' :
  file w' = file w -> shared_mappings w' = shared_mappings w ->
  store_invariant w -> store_invariant w'.
Proof. unfold store_invariant. intros -> ->. auto. Qed.

(** A valid call on the default record: the mapping goes into the
    template, and the write leaves a record with one event or, when it
    fails, a truncated file. *)
Lemma store_invariant_default c w w1 :
  valid_call c = true ->
  is_json (PDict (shared_mappings w)) = true ->
  load_version_mapping w
  = (Ok (record_of (PStr DEFAULT_DESCRIPTION) (PDict (shared_mappings w))
           (PList (map event_of [])) (PDict EMPTY_LAST_SYNC), true), w1) ->
  store_invariant (snd (record c w)).
Proof.
  intros Hv Hs E. destruct (valid_call_versions c Hv) as [Hu Hn].
  unfold record. rewrite (save_after_load _ _ _ _ _ _ _ _ _ _ _ Hu Hn E).
  cbv zeta. rewrite keep_other_versions_objects by reflexivity.
  fold (event_of c). fold (history_after c (map event_of [])).
  rewrite history_after_events.
  assert (Hvm : is_json (PDict (dict_set (KStr (call_upstream c)) (PStr (call_nad c))
                                  (shared_mappings w))) = true)
    by (apply is_json_dict_set; auto).
  destruct (encodable_value _); unfold store_invariant; cbn [snd file shared_mappings].
  - split; [exact Hvm |]. do 4 eexists. split; [reflexivity |].
    split; [exact Hvm |].
    split; [apply lastn_le |].
    split; [apply NoDup_upstream_after; constructor | apply mapped_after; constructor].
  - split; [exact Hvm | exact I].
Qed.

Lemma store_invariant_record c w :
  store_invariant w -> store_invariant (snd (record c w)).
Proof.
  intros H. destruct (valid_call c) eqn:Hv.
  2:{ unfold record. rewrite save_rejects; [exact H |].
      unfold valid_call in Hv. apply andb_false_iff in Hv as [Hv | Hv];
        apply negb_false_iff, String.eqb_eq in Hv; auto. }
  destruct (valid_call_versions c Hv) as [Hu Hn].
  destruct H as [Hs H]. destruct (file w) as [[data | [raw |]] |] eqn:Hf.
  - destruct data as [| | | | | data]; try contradiction.
    destruct H as (desc & vm & calls & ls & -> & Hvm & Hlen & Hnd & Hmap).
    pose proof (load_written _ _ _ _ _ Hf) as E.
    rewrite events_reload, (lastn_all _ _ (eq_ind_r (fun n => n <= _) Hlen (length_map _ _)))
      in E.
    rewrite (json_reload_stable _ Hvm) in E.
    unfold record. rewrite (save_after_load _ _ _ _ _ _ _ _ _ _ _ Hu Hn E).
    cbv zeta. rewrite keep_other_versions_objects by apply events_are_objects.
    fold (event_of c). fold (history_after c (map event_of calls)).
    rewrite history_after_events.
    destruct (encodable_value _); unfold store_invariant; cbn [snd file shared_mappings log].
    + split; [exact Hs |]. do 4 eexists. split; [reflexivity |].
      split; [apply is_json_dict_set; auto |].
      split; [apply lastn_le |].
      split; [now apply NoDup_upstream_after | now apply mapped_after].
    + split; [exact Hs | exact I].
  - contradiction.
  - apply (store_invariant_default c w (log w [FsExists; FsRead;
                                                Stderr (MsgLoadFailed JSONDecodeError)]));
      [exact Hv | exact Hs |].
    rewrite load_cases, Hf. reflexivity.
  - apply (store_invariant_default c w (log w [FsExists; Stdout MsgCreating]));
      [exact Hv | exact Hs |].
    rewrite load_cases, Hf. reflexivity.
Qed.

Lemma store_invariant_run ops :
  forall w, store_invariant w -> store_invariant (run ops w).
Proof.
  induction ops as [| o ops IH]; intros w H; simpl; [exact H |].
  apply IH. destruct o as [c | | c |]; simpl.
  - now apply store_invariant_record.
  - destruct (logs_only_list_mappings w) as [evs ->].
    eapply store_invariant_file; [| | exact H]; reflexivity.
  - destruct (logs_only_get_upstream c w) as [evs ->].
    eapply store_invariant_file; [| | exact H]; reflexivity.
  - unfold store_invariant in *. cbn [file shared_mappings].
    split; [reflexivity |]. destruct H as [_ H].
    destruct (file w) as [[[] | []] |]; auto.
Qed.

(** X16: in every state reached from the initial one by the operations of
    the tool, either there is no backing file yet, or a write failed and
    left it truncated, or the stored history is the list of events of at
    most [MAX_HISTORY] calls, no two of them for the same upstream
    version, and the stored mapping gives, for the upstream version of
    every history entry, the NAD version of that entry.  The file is
    never left truncated when the arguments of every record call can be
    encoded. *)
Theorem reachable_store_is_consistent (ops : list op) :
  let w := run ops initial in
  (file w = None
   \/ file w = Some (Foreign None)
   \/ exists calls,
        stored_history w = Some (map event_of calls)
        /\ length calls <= MAX_HISTORY
        /\ NoDup (map call_upstream calls)
        /\ forall c, In c calls ->
             stored_mapping (call_upstream c) w = Some (PStr (call_nad c)))
  /\ (forallb encodable_op ops = true -> file w <> Some (Foreign None)).
Proof.
  intros w. split.
  - assert (H : store_invariant w).
    { apply store_invariant_run. split; reflexivity. }
    destruct H as [_ H]. destruct (file w) as [[data | [raw |]] |] eqn:Hf;
      [| contradiction | now right; left | now left].
    destruct data as [| | | | | data]; try contradiction.
    destruct H as (desc & vm & calls & ls & -> & Hvm & Hlen & Hnd & Hmap).
    right; right. exists calls. unfold stored_history, stored_mapping, stored. rewrite Hf.
    split; [reflexivity |]. split; [exact Hlen |]. split; [exact Hnd |].
    intros c Hc.
    rewrite Forall_forall in Hmap. apply Hmap. now apply list_elem_of_In.
  - intros Hops.
    destruct (last_sync_is_run ops None initial Hops eq_refl) as [H _].
    { split; [reflexivity | discriminate]. }
    fold w in H. destruct (last_recorded ops None); simpl in H.
    + destruct H as (desc & vm & h & -> & _). discriminate.
    + rewrite H. discriminate.
Qed.

(** ** Rewriting the store *)

(** Loading a well-formed record returns it. *)
Lemma load_well_formed w data :
  file w = Some (Written (PDict data)) ->
  well_formed data ->
  load_version_mapping w = (Ok (data, false), log w [FsExists; FsRead]).
Proof.
  intros Hf Hwf.
  destruct Hwf as [desc vm h ts up nad trig Hdesc Hvm Hh Hlen Hts Hup Hnad Htrig].
  rewrite (load_written _ _ _ _ _ Hf).
  rewrite (json_reload_stable desc Hdesc), (json_reload_stable (PDict vm) Hvm).
  rewrite (json_reload_stable_list h Hh), (lastn_all _ _ Hlen).
  change (norm_last_sync (json_reload (PDict (sync_event ts up nad trig))))
    with (sync_event (json_reload ts) (json_reload up) (json_reload nad)
            (json_reload trig)).
  rewrite (json_reload_stable ts Hts), (json_reload_stable up Hup),
    (json_reload_stable nad Hnad), (json_reload_stable trig Htrig).
  reflexivity.
Qed.

(** What is loaded from a file the tool wrote after loading is
    well-formed. *)
Lemma reloaded_is_well_formed desc vm h ls :
  exists data,
    data = record_of (json_reload desc) (json_reload (PDict vm))
             (PList (lastn MAX_HISTORY (map json_reload h)))
             (PDict (norm_last_sync (json_reload (PDict ls))))
    /\ well_formed data.
Proof.
  eexists. split; [reflexivity |].
  pose proof (is_json_reload (PDict ls)) as Hls.
  change (json_reload (PDict vm)) with
    (PDict (fold_left
              (fun acc kv => dict_set (KStr (json_key (fst kv))) (json_reload (snd kv)) acc)
              vm [])).
  change (json_reload (PDict ls)) with
    (PDict (fold_left
              (fun acc kv => dict_set (KStr (json_key (fst kv))) (json_reload (snd kv)) acc)
              ls [])) in *.
  cbn [norm_last_sync].
  apply well_formed_intro; try (now apply is_json_get_default).
  - apply is_json_reload.
  - apply (is_json_reload (PDict vm)).
  - apply is_json_list_lastn. apply (is_json_reload (PList h)).
  - apply lastn_le.
Qed.

Lemma rewrite_store_file w :
  encodable_store w = true ->
  exists aliased events,
    load_version_mapping w = (Ok (loaded w, aliased), log w events)
    /\ rewrite_store w
       = (Ok tt, World (Some (Written (PDict (loaded w)))) (shared_mappings w)
                   (trace w ++ events ++ [FsMkdir; FsWrite])).
Proof.
  intros Henc. destruct (load_loaded w) as (al & evs & E & _).
  exists al, evs. split; [exact E |].
  unfold rewrite_store, bind at 1. rewrite E. cbn [fst].
  unfold encodable_store in Henc. rewrite write_mapping_cases, Henc.
  unfold log. cbn [shared_mappings trace]. rewrite <- !app_assoc. reflexivity.
Qed.

(** X17: loading and writing back settles: whatever the backing file
    holds, when the record loaded from it can be encoded, every round of
    load and write succeeds, and after two rounds a further round leaves
    the file, and so its text, exactly as it is. *)
Theorem rewrite_store_settles (w : world) :
  encodable_store w = true ->
  let round := fun w => snd (rewrite_store w) in
  fst (rewrite_store w) = Ok tt
  /\ fst (rewrite_store (round w)) = Ok tt
  /\ fst (rewrite_store (round (round w))) = Ok tt
  /\ file (round (round (round w))) = file (round (round w))
  /\ option_map file_text (file (round (round (round w))))
     = option_map file_text (file (round (round w))).
Proof.
  intros Henc round.
  assert (Hround : forall w0, encodable_store w0 = true ->
            file (round w0) = Some (Written (PDict (loaded w0)))
            /\ fst (rewrite_store w0) = Ok tt).
  { intros w0 H0. unfold round.
    destruct (rewrite_store_file w0 H0) as (al & evs & _ & ->). split; reflexivity. }
  destruct (Hround w Henc) as [Hf1 Hok1].
  destruct (load_loaded w) as (_ & _ & _ & Hshape & _).
  assert (Hls : exists ls, last_sync_of (loaded w) = PDict ls).
  { destruct (load_shape w) as (desc & vm & h & ls & al & evs & E & _).
    exists ls. unfold loaded. rewrite E. reflexivity. }
  destruct Hls as [ls Hls].
  rewrite Hshape, Hls in Hf1.
  assert (Henc1 : encodable_store (round w) = true).
  { eapply written_encodable_store; [exact Hf1 |].
    rewrite <- Hls, <- Hshape. exact Henc. }
  destruct (Hround (round w) Henc1) as [Hf2 Hok2].
  pose proof (load_written _ _ _ _ _ Hf1) as E1.
  destruct (reloaded_is_well_formed (description_of (loaded w)) (mappings_of (loaded w))
              (history_of (loaded w)) ls) as (data & Hdata & Hwf).
  rewrite <- Hdata in E1.
  assert (Hl1 : loaded (round w) = data) by (unfold loaded; rewrite E1; reflexivity).
  rewrite Hl1 in Hf2.
  assert (Hl2 : loaded (round (round w)) = data).
  { unfold loaded. rewrite (load_well_formed _ _ Hf2 Hwf). reflexivity. }
  assert (Henc2 : encodable_store (round (round w)) = true).
  { unfold encodable_store. rewrite Hl2, <- Hl1. exact Henc1. }
  destruct (Hround (round (round w)) Henc2) as [Hf3 Hok3].
  rewrite Hl2 in Hf3.
  split; [exact Hok1 |]. split; [exact Hok2 |]. split; [exact Hok3 |].
  assert (Hfile : file (round (round (round w))) = file (round (round w)))
    by (now rewrite Hf3, Hf2).
  split; [exact Hfile | now rewrite Hfile].
Qed.

Lemma rewrite_store_settles_witness :
  let w := World (Some (Foreign (Some (PDict
             [(KStr "version_mappings", PList [PList [PInt 33; PStr "33-no-aja"]])]))))
             [] [] in
  let round := fun w => snd (rewrite_store w) in
  fst (rewrite_store w) = Ok tt
  /\ fst (rewrite_store (round w)) = Ok tt
  /\ fst (rewrite_store (round (round w))) = Ok tt
  /\ file (round (round (round w))) = file (round (round w))
  /\ option_map file_text (file (round (round (round w))))
     = option_map file_text (file (round (round w))).
Proof.
  intros w. apply (rewrite_store_settles w). reflexivity.
Defined.

(** ** A write that fails *)

(** X20: [save-mapping U N] with non-empty versions, in a state with a
    history of objects, when a version or the clock's text cannot be
    encoded as UTF-8: the directory is made and the file opened, the dump
    raises [UnicodeEncodeError], [save_version_mapping] reports it on the
    error stream and raises it again, [main] reports it a second time and
    the exit status is 1.  The file is left truncated, so the next load
    returns an empty history. *)
Theorem unencodable_call_truncates_file (e : env) (u n : string) (w : world) :
  u <> "" -> n <> "" ->
  history_of_objects w = true ->
  encodable_call (Call (now e) u n "manual") = false ->
  exists events w',
    save_version_mapping (now e) u n "manual" w = (Raise UnicodeEncodeError, w')
    /\ file w' = Some (Foreign None)
    /\ trace w'
       = trace w ++ events
         ++ [FsMkdir; FsWrite; Stderr (MsgWriteFailed UnicodeEncodeError)]
    /\ existsb is_write events = false
    /\ history_of (loaded w') = []
    /\ (plain u = true -> plain n = true ->
        script e ["save-mapping"; u; n] w
        = Some (1%Z, log w' [Stderr (MsgSaveFailed UnicodeEncodeError)])).
Proof.
  intros Hu Hn Hobj Hc.
  assert (Hv : valid_call (Call (now e) u n "manual") = true).
  { unfold valid_call. simpl. apply String.eqb_neq in Hu, Hn. now rewrite Hu, Hn. }
  destruct (record_outcome _ w Hv) as (al & evs & Hevs & _ & Hrec).
  rewrite history_of_objects_loaded in Hobj. rewrite Hobj in Hrec.
  rewrite (unencodable_record_after _ _ Hc) in Hrec. cbv zeta in Hrec.
  unfold record in Hrec. cbn [call_now call_upstream call_nad call_trigger] in Hrec.
  exists evs. eexists. split; [exact Hrec |].
  split; [reflexivity |]. split; [reflexivity |]. split; [exact Hevs |].
  split.
  - unfold loaded. rewrite load_cases. reflexivity.
  - intros Hpu Hpn.
    unfold script, main, parse_args. simpl. rewrite Hpu, Hpn. simpl.
    unfold bind at 1. unfold ret at 1. simpl.
    unfold try_except, bind. rewrite Hrec. reflexivity.
Qed.

Lemma unencodable_call_truncates_file_witness :
  let u := String (ascii_of_nat 255) "" in
  let w := snd (record (sample_call 0) initial) in
  exists events w',
    save_version_mapping (now sample_env) u "nad" "manual" w
    = (Raise UnicodeEncodeError, w')
    /\ file w' = Some (Foreign None)
    /\ trace w'
       = trace w ++ events
         ++ [FsMkdir; FsWrite; Stderr (MsgWriteFailed UnicodeEncodeError)]
    /\ existsb is_write events = false
    /\ history_of (loaded w') = []
    /\ (plain u = true -> plain "nad" = true ->
        script sample_env ["save-mapping"; u; "nad"] w
        = Some (1%Z, log w' [Stderr (MsgSaveFailed UnicodeEncodeError)])).
Proof.
  intros u w.
  apply (unencodable_call_truncates_file sample_env u "nad" w);
    try discriminate; reflexivity.
Defined.

(** ** The dispatcher *)

Lemma subcommand_cases a :
  is_subcommand a = true -> a = "get-upstream" \/ a = "save-mapping" \/ a = "list".
Proof.
  unfold is_subcommand, SUBCOMMANDS. cbn [existsb].
  destruct (String.eqb_spec a "get-upstream"); [auto |].
  destruct (String.eqb_spec a "save-mapping"); [auto |].
  destruct (String.eqb_spec a "list"); [auto | discriminate].
Qed.

Lemma plain_not_flag a : plain a = true -> String.eqb a "--trigger-type" = false.
Proof.
  intros H. destruct (String.eqb_spec a "--trigger-type") as [-> |]; [discriminate | reflexivity].
Qed.

Lemma script_usage_error e a rest w :
  parse_args (a :: rest) = Some usage_error ->
  script e (a :: rest) w = Some (2%Z, log w [Stderr MsgUsageError]).
Proof. intros H. unfold script, main. rewrite H. reflexivity. Qed.

(** X18: a subcommand followed by the wrong number of plain arguments is
    rejected by the parser: [save-mapping] with other than two, [list]
    or [get-upstream] with any.  The exit status is 2 and nothing happens
    but the usage message on the error stream: the backing file is
    neither read nor written. *)
Theorem wrong_argument_count_is_usage_error
    (e : env) (a : string) (rest : list string) (w : world) :
  is_subcommand a = true ->
  forallb plain rest = true ->
  (if String.eqb a "save-mapping" then length rest <> 2 else rest <> []) ->
  script e (a :: rest) w = Some (2%Z, log w [Stderr MsgUsageError]).
Proof.
  intros Hsub Hplain Hcount.
  apply script_usage_error. unfold parse_args.
  assert (Hh : String.eqb a "-h" || String.eqb a "--help" = false).
  { destruct (subcommand_cases a Hsub) as [-> | [-> | ->]]; reflexivity. }
  assert (Hp : plain a = true).
  { destruct (subcommand_cases a Hsub) as [-> | [-> | ->]]; reflexivity. }
  rewrite Hh, Hp, Hsub. cbn [negb].
  destruct (String.eqb a "save-mapping").
  - destruct rest as [| u [| n [| flag [| t [| x rest]]]]];
      try (rewrite Hplain; reflexivity).
    + simpl in Hcount. congruence.
    + cbn [forallb] in Hplain.
      repeat match type of Hplain with
             | _ && _ = true => apply andb_prop in Hplain as [? Hplain]
             end.
      rewrite (plain_not_flag flag) by assumption.
      rewrite andb_false_r. simpl.
      cbn [forallb]. repeat match goal with H : plain _ = true |- _ => rewrite H; clear H end.
      reflexivity.
  - destruct rest as [| x rest]; [congruence |]. rewrite Hplain. reflexivity.
Qed.

Lemma wrong_argument_count_is_usage_error_witness :
  script sample_env ["save-mapping"; "33.0.0"] initial
    = Some (2%Z, log initial [Stderr MsgUsageError]).
Proof.
  apply (wrong_argument_count_is_usage_error sample_env "save-mapping" ["33.0.0"] initial);
    [reflexivity | reflexivity | simpl; lia].
Defined.

Lemma save_command_outcome e u n t w :
  exists st w',
    try_except
      (do* _ := save_version_mapping (now e) u n t in ret 0%Z)
      (fun exc => do* _ := eprint (MsgSaveFailed exc) in ret 1%Z) w
    = (Ok st, w')
    /\ (file w' = file w
        \/ (u <> "" /\ n <> "" /\ save_changed e u n t st w')).
Proof.
  destruct (valid_call (Call (now e) u n t)) eqn:Hv.
  - destruct (valid_call_versions _ Hv) as [Hu Hn]. simpl in Hu, Hn.
    destruct (record_outcome _ w Hv) as (al & evs & _ & _ & Hrec).
    unfold record in Hrec. cbn [call_now call_upstream call_nad call_trigger] in Hrec.
    cbv zeta in Hrec. unfold try_except, bind. rewrite Hrec.
    destruct (forallb is_dict (history_of (loaded w))).
    + destruct (encodable_value _).
      * do 2 eexists. split; [reflexivity |]. right.
        split; [exact Hu |]. split; [exact Hn |]. left.
        split; [reflexivity |]. split; [reflexivity |].
        unfold loaded at 1, record_after. erewrite load_written by reflexivity.
        reflexivity.
      * do 2 eexists. split; [reflexivity |]. right.
        split; [exact Hu |]. split; [exact Hn |]. right. split; reflexivity.
    + do 2 eexists. split; [reflexivity |]. left. reflexivity.
  - unfold try_except, bind. rewrite save_rejects.
    + do 2 eexists. split; [reflexivity |]. left. reflexivity.
    + unfold valid_call in Hv. simpl in Hv. apply andb_false_iff in Hv as [Hv | Hv];
        apply negb_false_iff, String.eqb_eq in Hv; auto.
Qed.

Lemma script_dispatch e a rest w :
  script e (a :: rest) w
  = match parse_args (a :: rest) with
    | Some parse => Some (exit_of ((do* args := parse in dispatch e args) w))
    | None => None
    end.
Proof. unfold script, main. destruct (parse_args (a :: rest)); reflexivity. Qed.

Lemma exit_of_usage_error e w :
  exit_of ((do* args := usage_error in dispatch e args) w)
  = (2%Z, log w [Stderr MsgUsageError]).
Proof. reflexivity. Qed.

Lemma exit_of_save e u n t w :
  exists st w',
    exit_of ((do* args := ret (Namespace (Some "save-mapping") u n t) in dispatch e args) w)
    = (st, w')
    /\ (file w' = file w
        \/ (u <> "" /\ n <> "" /\ save_changed e u n t st w')).
Proof.
  destruct (save_command_outcome e u n t w) as (st & w' & Hs & Hcase).
  exists st, w'. split; [| exact Hcase].
  unfold bind at 1, ret at 1, dispatch.
  cbn [command_is command upstream_version nad_version trigger_type].
  simpl (String.eqb _ _). cbv iota. rewrite Hs. reflexivity.
Qed.

Lemma exit_of_get_upstream e w :
  file (snd (exit_of ((do* args := ret (Namespace (Some "get-upstream") "" "" "") in
                       dispatch e args) w))) = file w.
Proof.
  unfold bind at 1, ret at 1, dispatch. cbn [command_is command].
  simpl (String.eqb _ _). cbv iota.
  destruct (get_upstream_outcome (curl e) w) as (r & evs & E & _).
  unfold bind at 1. rewrite E. destruct r; reflexivity.
Qed.

Lemma exit_of_list e w :
  file (snd (exit_of ((do* args := ret (Namespace (Some "list") "" "" "") in
                       dispatch e args) w))) = file w.
Proof.
  unfold bind at 1, ret at 1, dispatch. cbn [command_is command].
  simpl (String.eqb _ _). cbv iota.
  destruct (logs_only_list_mappings w) as [evs Hl].
  unfold bind. destruct (list_mappings w) as [[[] | exc] w1]; simpl in Hl; subst w1.
  - reflexivity.
  - destruct exc; reflexivity.
Qed.

(** X19: the backing file changes only through [save-mapping] with two
    non-empty versions: after any other command line, and after a
    [save-mapping] that fails before its write, the file is what it was,
    whatever the exit status.  When [save-mapping] changes the file, it
    exits with status 0 and the file holds the record with the new event,
    which the next load returns as last sync, or the write failed, the
    exit status is 1 and the file is left truncated. *)
Theorem only_save_mapping_changes_file
    (e : env) (argv : list string) (w w' : world) (st : Z) :
  script e argv w = Some (st, w') ->
  file w' = file w
  \/ exists u n rest t,
       argv = "save-mapping" :: u :: n :: rest
       /\ u <> "" /\ n <> ""
       /\ save_changed e u n t st w'.
Proof.
  intros H. destruct argv as [| a rest].
  { injection H as <- <-. now left. }
  rewrite script_dispatch in H. unfold parse_args in H.
  destruct (String.eqb a "-h" || String.eqb a "--help").
  { injection H as <- <-. now left. }
  destruct (plain a); [| discriminate]. cbn [negb] in H.
  destruct (is_subcommand a) eqn:Hsub; cbn [negb] in H.
  2:{ rewrite exit_of_usage_error in H. injection H as <- <-. now left. }
  assert (Husage : Some (exit_of ((do* args := usage_error in dispatch e args) w))
                   = Some (st, w') -> file w' = file w).
  { rewrite exit_of_usage_error. intros [= <- <-]. reflexivity. }
  assert (Hsave : forall u n t,
             Some (exit_of ((do* args := ret (Namespace (Some "save-mapping") u n t) in
                             dispatch e args) w)) = Some (st, w') ->
             file w' = file w
             \/ (u <> "" /\ n <> "" /\ save_changed e u n t st w')).
  { intros u n t Hr. destruct (exit_of_save e u n t w) as (st1 & w1 & Hs & Hcase).
    rewrite Hs in Hr. injection Hr as <- <-. exact Hcase. }
  destruct (String.eqb_spec a "save-mapping") as [-> | Hnot].
  - destruct rest as [| u [| n [| flag [| t [| x rest]]]]].
    + destruct (forallb plain []); [left; auto | discriminate].
    + destruct (forallb plain [u]); [left; auto | discriminate].
    + destruct (plain u && plain n); [| discriminate].
      destruct (Hsave u n "manual" H) as [Hl | (Hu & Hn & Hm)]; [now left |].
      right. exists u, n, [], "manual". auto.
    + destruct (forallb plain [u; n; flag]); [left; auto | discriminate].
    + destruct (plain u && plain n && String.eqb flag "--trigger-type" && plain t).
      * destruct (Hsave u n t H) as [Hl | (Hu & Hn & Hm)]; [now left |].
        right. exists u, n, [flag; t], t. auto.
      * destruct (forallb plain [u; n; flag; t]); [left; auto | discriminate].
    + destruct (forallb plain (u :: n :: flag :: t :: x :: rest));
        [left; auto | discriminate].
  - left. destruct rest as [| x rest].
    + destruct (subcommand_cases a Hsub) as [-> | [-> | ->]]; [| congruence |];
        injection H as H; apply (f_equal snd) in H; simpl in H; subst w'.
      * apply exit_of_get_upstream.
      * apply exit_of_list.
    + destruct (forallb plain (x :: rest)); [auto | discriminate].
Qed.

Lemma only_save_mapping_changes_file_witness :
  let argv := ["save-mapping"; String (ascii_of_nat 255) ""; "nad"] in
  let w' := snd (save_version_mapping (now sample_env) (String (ascii_of_nat 255) "")
                   "nad" "manual" initial) in
  let w1 := log w' [Stderr (MsgSaveFailed UnicodeEncodeError)] in
  file w1 = file initial
  \/ exists u n rest t,
       argv = "save-mapping" :: u :: n :: rest
       /\ u <> "" /\ n <> ""
       /\ save_changed sample_env u n t 1%Z w1.
Proof.
  intros argv w' w1.
  apply (only_save_mapping_changes_file sample_env argv initial w1 1%Z). reflexivity.
Defined.
